(** * gost tun tunnel (tun.go): relay engine, learning table, listener

    A shallow embedding of [tun.go].  Go values become Rocq data, the two
    pump goroutines of [transportTun] become step functions over an
    explicit session state, and every observable effect (log lines, writes,
    pool traffic, channel operations) is appended to a chronological trace.
    Blocking calls are modelled by a step that leaves the state unchanged. *)

From Stdlib Require Import ZArith NArith Ascii.
From Stdlib.Strings Require Import Byte.
From stdpp Require Import base option list strings gmap fin_maps.

Open Scope Z_scope.

(** ** Go values used by the file *)

(** [net.Addr] is an interface with two methods, [Network()] and
    [String()]; the code only ever prints or compares their results. *)
Record Addr : Type := mkAddr { Addr_Network : string; Addr_String : string }.

Global Instance Addr_eq_dec : EqDecision Addr.
Proof. solve_decision. Defined.

(** Go's [error] values that occur in the file: the sentinel [io.EOF],
    values built by [errors.New] and [*net.OpError].  A Go [error] may be
    [nil]; that is [GoError := option error] with [None] for [nil]. *)
Inductive error : Type :=
| EOF
| errors_New (msg : string)
| OpError (Op Net : string) (Source Address : option Addr) (Err : error).

Definition GoError : Type := option error.
Definition nil_error : GoError := None.

Fixpoint error_eqb (x y : error) : bool :=
  match x, y with
  | EOF, EOF => true
  | errors_New a, errors_New b => bool_decide (a = b)
  | OpError o n s a e, OpError o' n' s' a' e' =>
      bool_decide (o = o') && bool_decide (n = n') &&
      bool_decide (s = s') && bool_decide (a = a') && error_eqb e e'
  | _, _ => false
  end.

(** [err == io.EOF] on a possibly nil interface value. *)
Definition GoError_eqb (x y : GoError) : bool :=
  match x, y with
  | None, None => true
  | Some a, Some b => error_eqb a b
  | _, _ => false
  end.

(** ** IPv4 headers (golang.org/x/net/ipv4) *)

(** [net.IP] as built by [net.IPv4(a, b, c, d)]. *)
Inductive IP : Type := IPv4 (a b c d : byte).

Definition digit (n : N) : ascii := ascii_of_N (48 + n).

(** Decimal rendering of one octet, as [IP.String] prints it. *)
Definition octet_String (x : byte) : string :=
  let n := Byte.to_N x in
  if (n <? 10)%N then String (digit n) EmptyString
  else if (n <? 100)%N then
    String (digit (n / 10)) (String (digit (n mod 10)) EmptyString)
  else
    String (digit (n / 100))
      (String (digit ((n / 10) mod 10)) (String (digit (n mod 10)) EmptyString)).

Definition IP_String (ip : IP) : string :=
  match ip with
  | IPv4 a b c d =>
      octet_String a +:+ "." +:+ octet_String b +:+ "." +:+
      octet_String c +:+ "." +:+ octet_String d
  end.

Record Header : Type := mkHeader {
  Version : Z;
  Len : Z;
  TOS : Z;
  TotalLen : Z;
  ID : Z;
  Flags : Z;
  FragOff : Z;
  TTL : Z;
  Protocol : Z;
  Checksum : Z;
  Src : IP;
  Dst : IP;
  Options : list byte
}.

Definition ipv4_Version : Z := 4.
Definition ipv4_HeaderLen : Z := 20.

Definition errHeaderTooShort : error := errors_New "header too short".
Definition errExtHeaderTooShort : error := errors_New "extension header too short".

Definition at_ (b : list byte) (i : nat) : byte := nth i b x00.
Definition byteZ (b : list byte) (i : nat) : Z := Z.of_N (Byte.to_N (at_ b i)).

(** [binary.BigEndian.Uint16(b[i:i+2])]. *)
Definition BigEndian_Uint16 (b : list byte) (i : nat) : Z :=
  Z.lor (Z.shiftl (byteZ b i) 8) (byteZ b (S i)).

(** Modelled from the spec: [ipv4.ParseHeader] belongs to
    golang.org/x/net/ipv4 and is not among the sources.  The spec's
    PacketCodec inspects only the leading header bytes and fails when the
    buffer is too short (fewer than the 20 bytes of a header) or internally
    inconsistent (the header length field exceeds the buffer); otherwise it
    returns the fields, the version being the high nibble of the first
    byte.  Field extraction is the library's, on Linux. *)
Definition ParseHeader (b : list byte) : Header + error :=
  if Z.of_nat (length b) <? ipv4_HeaderLen then inr errHeaderTooShort
  else
    let hdrlen := Z.shiftl (Z.land (byteZ b 0) 15) 2 in
    if Z.of_nat (length b) <? hdrlen then inr errExtHeaderTooShort
    else
      let fragoff := BigEndian_Uint16 b 6 in
      let optlen := hdrlen - ipv4_HeaderLen in
      inl {| Version := Z.shiftr (byteZ b 0) 4;
             Len := hdrlen;
             TOS := byteZ b 1;
             TotalLen := BigEndian_Uint16 b 2;
             ID := BigEndian_Uint16 b 4;
             Flags := Z.shiftr (Z.land fragoff 57344) 13;
             FragOff := Z.land fragoff 8191;
             TTL := byteZ b 8;
             Protocol := byteZ b 9;
             Checksum := BigEndian_Uint16 b 10;
             Src := IPv4 (at_ b 12) (at_ b 13) (at_ b 14) (at_ b 15);
             Dst := IPv4 (at_ b 16) (at_ b 17) (at_ b 18) (at_ b 19);
             Options := if 0 <? optlen
                        then take (Z.to_nat optlen) (drop 20 b) else [] |}.

(** ** The relay engine: [transportTun] *)

(** The two buffer pools of the package ([sPool], [mPool]). *)
Inductive Pool : Type := sPool | mPool.

(** One constructor per [log.Logf] call site of [transportTun], carrying
    the values that are formatted. *)
Inductive LogEntry : Type :=
| Log_tun_err (local : Addr) (err : error)
| Log_tun_ignored (local : Addr) (version : Z)
| Log_no_address (local : Addr) (src dst : IP)
| Log_debug_out (local addr : Addr) (h : Header)
| Log_conn_err (local from : Addr) (err : error)
| Log_conn_ignored (local from : Addr) (version : Z)
| Log_debug_in (local from : Addr) (h : Header)
| Log_mismatch (local from : Addr) (dst : string) (addr : Addr) (actual : string)
| Log_result (local connLocal : Addr) (err : GoError).

(** Observable effects, in the order in which they happen. *)
Inductive Event : Type :=
| EvGet (p : Pool)
| EvPut (p : Pool)
| EvLogf (l : LogEntry)
| EvWriteTo (b : list byte) (addr : Addr)
| EvWrite (b : list byte)
| EvSend (e : error)
| EvRecv (e : error).

(** What the outside world answers during one iteration of a pump: the
    result of the read and, should the iteration reach it, of the write. *)
Record TunTurn : Type := mkTunTurn {
  tun_Read : list byte + error;
  conn_WriteTo : GoError
}.

Record ConnTurn : Type := mkConnTurn {
  conn_ReadFrom : (list byte * Addr) + error;
  tun_Write : GoError
}.

(** State shared by the two goroutines: the [routes] map and the trace. *)
Record Shared : Type := mkShared {
  routes : gmap string Addr;
  trace : list Event
}.

Definition emit (e : Event) (s : Shared) : Shared :=
  {| routes := routes s; trace := trace s ++ [e] |}.

(** [routes] is a [sync.Map] (Go standard library), here a finite map with
    string keys.  [Load] and [LoadOrStore] are each one atomic step, so a
    concurrent run is an interleaving of them: [LoadOrStore] returns the
    existing value if present, otherwise stores and returns the given one;
    [loaded] tells which. *)
Definition Load (m : gmap string Addr) (key : string) : option Addr := m !! key.

Definition LoadOrStore (m : gmap string Addr) (key : string) (value : Addr)
  : Addr * bool * gmap string Addr :=
  match m !! key with
  | Some actual => (actual, true, m)
  | None => (value, false, <[key := value]> m)
  end.

(** State of a pump goroutine: inside its [for] loop, at [errc <- err]
    with the error it is about to send, or past its [return]. *)
Inductive Goroutine : Type :=
| Looping
| Sending (err : error)
| Returned.

Inductive Thread : Type := TunPump | ConnPump | Main.

(** A running [transportTun]: shared state, the one-slot buffer of
    [errc], both pumps with the answers the world still holds for them,
    and the value [transportTun] returned, once it did. *)
Record Session : Type := mkSession {
  shared : Shared;
  errc : option error;
  tunPump : Goroutine;
  tunScript : list TunTurn;
  connPump : Goroutine;
  connScript : list ConnTurn;
  result : option GoError
}.

Section Relay.

(** The header parser in use, the two local addresses that are logged, the
    statically configured remote address ([nil] when absent) and the
    package's [Debug] flag. *)
Variable ipv4_ParseHeader : list byte -> Header + error.
Variable tun_LocalAddr conn_LocalAddr : Addr.
Variable raddr : option Addr.
Variable Debug : bool.

(** Body of the closure run by the interface-to-transport pump, lines
    151-187, without the pool calls. *)
Definition tunPump_body (t : TunTurn) (s : Shared) : GoError * Shared :=
  match tun_Read t with
  | inr err => (Some err, s)
  | inl b =>
      match ipv4_ParseHeader b with
      | inr err => (Some err, emit (EvLogf (Log_tun_err tun_LocalAddr err)) s)
      | inl header =>
          if negb (Version header =? ipv4_Version) then
            (None,
             emit (EvLogf (Log_tun_ignored tun_LocalAddr (Version header))) s)
          else
            let addr := raddr in
            let addr :=
              match Load (routes s) (IP_String (Dst header)) with
              | Some v => Some v
              | None => addr
              end in
            match addr with
            | None =>
                (None,
                 emit (EvLogf (Log_no_address tun_LocalAddr
                                 (Src header) (Dst header))) s)
            | Some a =>
                let s1 :=
                  if Debug
                  then emit (EvLogf (Log_debug_out tun_LocalAddr a header)) s
                  else s in
                (conn_WriteTo t, emit (EvWriteTo b a) s1)
            end
      end
  end.

(** One iteration of the interface-to-transport pump: [sPool.Get], the
    body, and the deferred [sPool.Put]. *)
Definition tunPump_iter (t : TunTurn) (s : Shared) : GoError * Shared :=
  let s0 := emit (EvGet sPool) s in
  let '(err, s1) := tunPump_body t s0 in
  (err, emit (EvPut sPool) s1).

(** Body of the closure run by the transport-to-interface pump, lines
    203-236. *)
Definition connPump_body (t : ConnTurn) (s : Shared) : GoError * Shared :=
  match conn_ReadFrom t with
  | inr err => (Some err, s)
  | inl (b, addr) =>
      match ipv4_ParseHeader b with
      | inr err =>
          (Some err, emit (EvLogf (Log_conn_err tun_LocalAddr addr err)) s)
      | inl header =>
          if negb (Version header =? ipv4_Version) then
            (None,
             emit (EvLogf (Log_conn_ignored tun_LocalAddr addr
                             (Version header))) s)
          else
            let s1 :=
              if Debug
              then emit (EvLogf (Log_debug_in tun_LocalAddr addr header)) s
              else s in
            let '(actual, loaded, m) :=
              LoadOrStore (routes s1) (IP_String (Src header)) addr in
            let s2 := {| routes := m; trace := trace s1 |} in
            let s3 :=
              if loaded &&
                 negb (bool_decide (Addr_String actual = Addr_String addr))
              then emit (EvLogf (Log_mismatch tun_LocalAddr addr
                                   (IP_String (Dst header)) addr
                                   (Addr_String actual))) s2
              else s2 in
            (tun_Write t, emit (EvWrite b) s3)
      end
  end.

(** One iteration of the transport-to-interface pump: [sPool.Get], the
    body, and the deferred [mPool.Put]. *)
Definition connPump_iter (t : ConnTurn) (s : Shared) : GoError * Shared :=
  let s0 := emit (EvGet sPool) s in
  let '(err, s1) := connPump_body t s0 in
  (err, emit (EvPut mPool) s1).

(** One scheduling step of a pump goroutine.  In the loop it runs one
    iteration, or waits when the world has no answer yet (a blocked read);
    a non-nil result leaves the loop for [errc <- err].  The send completes
    when the slot of the channel is free and blocks otherwise. *)
Definition pump_step {T : Type} (iter : T -> Shared -> GoError * Shared)
    (g : Goroutine) (script : list T) (sh : Shared) (ch : option error)
  : Goroutine * list T * Shared * option error :=
  match g with
  | Looping =>
      match script with
      | [] => (g, script, sh, ch)
      | t :: rest =>
          let '(err, sh') := iter t sh in
          match err with
          | None => (Looping, rest, sh', ch)
          | Some e => (Sending e, rest, sh', ch)
          end
      end
  | Sending e =>
      match ch with
      | None => (Returned, script, emit (EvSend e) sh, Some e)
      | Some _ => (g, script, sh, ch)
      end
  | Returned => (g, script, sh, ch)
  end.

(** Lines 246-251: receive from [errc], turn [io.EOF] into [nil], log and
    return. *)
Definition normalize (err : GoError) : GoError :=
  if negb (GoError_eqb err nil_error) && GoError_eqb err (Some EOF)
  then nil_error else err.

Definition main_step (s : Session) : Session :=
  match result s with
  | Some _ => s
  | None =>
      match errc s with
      | None => s
      | Some e =>
          let err := normalize (Some e) in
          {| shared :=
               emit (EvLogf (Log_result tun_LocalAddr conn_LocalAddr err))
                 (emit (EvRecv e) (shared s));
             errc := None;
             tunPump := tunPump s; tunScript := tunScript s;
             connPump := connPump s; connScript := connScript s;
             result := Some err |}
      end
  end.

Definition step (th : Thread) (s : Session) : Session :=
  match th with
  | TunPump =>
      let '(g, script, sh, ch) :=
        pump_step tunPump_iter (tunPump s) (tunScript s) (shared s) (errc s) in
      {| shared := sh; errc := ch; tunPump := g; tunScript := script;
         connPump := connPump s; connScript := connScript s;
         result := result s |}
  | ConnPump =>
      let '(g, script, sh, ch) :=
        pump_step connPump_iter (connPump s) (connScript s) (shared s) (errc s) in
      {| shared := sh; errc := ch; tunPump := tunPump s;
         tunScript := tunScript s; connPump := g; connScript := script;
         result := result s |}
  | Main => main_step s
  end.

Fixpoint run (schedule : list Thread) (s : Session) : Session :=
  match schedule with
  | [] => s
  | th :: rest => run rest (step th s)
  end.

(** [transportTun] under a schedule: a fresh [routes] map, an empty
    [errc], both goroutines started. *)
Definition start (ts : list TunTurn) (cs : list ConnTurn) : Session :=
  {| shared := {| routes := ∅; trace := [] |};
     errc := None;
     tunPump := Looping; tunScript := ts;
     connPump := Looping; connScript := cs;
     result := None |}.

Definition transportTun (schedule : list Thread)
    (ts : list TunTurn) (cs : list ConnTurn) : Session :=
  run schedule (start ts cs).

End Relay.

(** First error whose send on [errc] completed, if any. *)
Fixpoint first_sent (tr : list Event) : option error :=
  match tr with
  | [] => None
  | EvSend e :: _ => Some e
  | _ :: rest => first_sent rest
  end.

(** The writes that reached the transport or the interface. *)
Definition is_forward (e : Event) : bool :=
  match e with
  | EvWriteTo _ _ | EvWrite _ => true
  | _ => false
  end.

Definition forwards (tr : list Event) : list Event := filter is_forward tr.

(** ** [tunConn]: the interface seen as a connection *)

(** [*water.Interface] is opaque to this file but for its name. *)
Record Interface : Type := mkInterface { ifce_Name : string }.

Record tunConn : Type := mkTunConn { ifce : Interface; addr : Addr }.

(** [time.Time] values are never inspected. *)
Definition Time : Type := Z.

Definition tunConn_LocalAddr (c : tunConn) : Addr := addr c.

Definition tunConn_SetDeadline (c : tunConn) (t : Time) : GoError :=
  Some (OpError "set" "tun" None None (errors_New "deadline not supported")).

Definition tunConn_SetReadDeadline (c : tunConn) (t : Time) : GoError :=
  Some (OpError "set" "tun" None None (errors_New "deadline not supported")).

Definition tunConn_SetWriteDeadline (c : tunConn) (t : Time) : GoError :=
  Some (OpError "set" "tun" None None (errors_New "deadline not supported")).

(** ** [tunListener]: one datagram socket as a listener *)

(** A [chan struct{}] on which nothing is ever sent: all that matters is
    whether [close] was called on it.  Receiving from it blocks while it
    is open and succeeds at once when it is closed. *)
Inductive Chan : Type := Open | Closed.

Record UDPConn : Type := mkUDPConn { udp_LocalAddr : Addr }.

Record tunListener : Type := mkTunListener {
  conn : UDPConn;
  accepted : Chan;
  closed : Chan
}.

(** The listener [TunListener] returns once the address resolved and the
    socket is bound: two fresh channels. *)
Definition TunListener (c : UDPConn) : tunListener :=
  {| conn := c; accepted := Open; closed := Open |}.

(** A call either returned a value or is parked on a channel. *)
Inductive Outcome (A : Type) : Type :=
| Done (a : A)
| Blocked.
Arguments Done {A} a.
Arguments Blocked {A}.

Definition errAcceptClosed : error := errors_New "accept on closed listener".
Definition errListenerClosed : error := errors_New "listener has been closed".

(** Second [select] of [Accept], lines 322-326: wait for [l.closed], then
    fail.  A parked call is resumed by evaluating this again. *)
Definition tunListener_Accept_wait (l : tunListener)
  : Outcome (option UDPConn * GoError) :=
  match closed l with
  | Closed => Done (None, Some errAcceptClosed)
  | Open => Blocked
  end.

(** [Accept], lines 314-327. *)
Definition tunListener_Accept (l : tunListener)
  : Outcome (option UDPConn * GoError) * tunListener :=
  match accepted l with
  | Closed => (tunListener_Accept_wait l, l)
  | Open =>
      (Done (Some (conn l), nil_error),
       {| conn := conn l; accepted := Closed; closed := closed l |})
  end.

Definition tunListener_Addr (l : tunListener) : Addr := udp_LocalAddr (conn l).

(** [Close], lines 333-341. *)
Definition tunListener_Close (l : tunListener) : GoError * tunListener :=
  match closed l with
  | Closed => (Some errListenerClosed, l)
  | Open =>
      (nil_error, {| conn := conn l; accepted := accepted l; closed := Closed |})
  end.

(** Calls made on a listener one after the other. *)
Inductive ListenerCall : Type := CallAccept | CallClose.

Definition call (c : ListenerCall) (l : tunListener) : tunListener :=
  match c with
  | CallAccept => snd (tunListener_Accept l)
  | CallClose => snd (tunListener_Close l)
  end.

Definition calls (cs : list ListenerCall) (l : tunListener) : tunListener :=
  foldl (fun l c => call c l) l cs.

(** ** [tunHandler]: orchestration *)

Record TunConfig : Type := mkTunConfig {
  cfg_Name : string;
  cfg_Addr : string;
  cfg_MTU : Z;
  cfg_Routes : list string
}.

(** [*url.Userinfo]: a user name and an optional password. *)
Record Userinfo : Type := mkUserinfo {
  Username : string;
  Password : string * bool
}.

Record HandlerOptions : Type := mkHandlerOptions {
  Users : list (option Userinfo);
  opt_TunConfig : TunConfig
}.

Record tunHandler : Type := mkTunHandler {
  h_raddr : string;
  options : HandlerOptions
}.

(** The [net.Conn] handed to [Handle]: its local address and whether its
    dynamic type also implements [net.PacketConn]. *)
Record NetConn : Type := mkNetConn {
  nc_LocalAddr : Addr;
  implementsPacketConn : bool
}.

Inductive HandlerLog : Type :=
| Log_wrong_type
| Log_create_tun (connLocal : Addr) (err : error)
| Log_created (tunLocal connLocal : Addr)
| Log_remote_addr (tunLocal connLocal : Addr) (err : error)
| Log_cipher (tunLocal connLocal : Addr) (err : error).

(** What [Handle] does to the outside world, in order. *)
Inductive Action : Type :=
| ALogf (l : HandlerLog)
| AWaterNew (name : string)
| AExec (path : string) (args : list string)
| APickCipher (name password : string)
| ATransportTun (tc : tunConn) (ciphered : bool) (raddr : option Addr)
| ATunClose (tc : tunConn)
| AConnClose
| AExit (code : Z).

Section Handler.

(** The collaborators of the handler, all outside the file. *)
Variable net_ParseCIDR : string -> IP + error.
Variable water_New : string -> Interface + error.
Variable cmd_Run : list string -> GoError.
Variable net_ResolveUDPAddr : string -> Addr + error.
Variable core_PickCipher : string -> string -> GoError.
Variable strconv_Itoa : Z -> string.
Variable DefaultMTU : Z.

(** The [setup] closure of [createTun]: run [/sbin/ip] with [args]. *)
Definition setup (args : list string) : list Action * GoError :=
  ([AExec "/sbin/ip" args], cmd_Run args).

(** [createTun], lines 94-139. *)
Definition createTun (h : tunHandler) : list Action * (tunConn + error) :=
  let cfg := opt_TunConfig (options h) in
  match net_ParseCIDR (cfg_Addr cfg) with
  | inr err => ([], inr err)
  | inl ip =>
      match water_New (cfg_Name cfg) with
      | inr err => ([AWaterNew (cfg_Name cfg)], inr err)
      | inl ifce =>
          let a0 := [AWaterNew (cfg_Name cfg)] in
          let mtu := cfg_MTU cfg in
          let mtu := if mtu <=? 0 then DefaultMTU else mtu in
          let '(a1, err) :=
            setup ["link"; "set"; "dev"; ifce_Name ifce; "mtu";
                   strconv_Itoa mtu] in
          match err with
          | Some err => (a0 ++ a1, inr err)
          | None =>
              let '(a2, err) :=
                setup ["addr"; "add"; cfg_Addr cfg; "dev"; ifce_Name ifce] in
              match err with
              | Some err => (a0 ++ a1 ++ a2, inr err)
              | None =>
                  let '(a3, err) :=
                    setup ["link"; "set"; "dev"; ifce_Name ifce; "up"] in
                  match err with
                  | Some err => (a0 ++ a1 ++ a2 ++ a3, inr err)
                  | None =>
                      (a0 ++ a1 ++ a2 ++ a3,
                       inl {| ifce := ifce;
                              addr := {| Addr_Network := "ip";
                                         Addr_String := IP_String ip |} |})
                  end
              end
          end
      end
  end.

(** [Handle], lines 53-92, as the list of its actions when the relay it
    starts returns.  Deferred calls run last, most recent first:
    [tc.Close] (once the interface exists), [conn.Close], [os.Exit(0)]. *)
Definition Handle (h : tunHandler) (c : NetConn) : list Action :=
  let deferred := [AConnClose; AExit 0] in
  if negb (implementsPacketConn c) then
    [ALogf Log_wrong_type] ++ deferred
  else
    let '(a0, r) := createTun h in
    match r with
    | inr err => a0 ++ [ALogf (Log_create_tun (nc_LocalAddr c) err)] ++ deferred
    | inl tc =>
        let deferred := ATunClose tc :: deferred in
        let a1 :=
          a0 ++ [ALogf (Log_created (tunConn_LocalAddr tc) (nc_LocalAddr c))] in
        let resolved : option Addr + error :=
          if bool_decide (h_raddr h = "") then inl None
          else match net_ResolveUDPAddr (h_raddr h) with
               | inl a => inl (Some a)
               | inr err => inr err
               end in
        match resolved with
        | inr err =>
            a1 ++ [ALogf (Log_remote_addr (tunConn_LocalAddr tc)
                            (nc_LocalAddr c) err)] ++ deferred
        | inl raddr =>
            match Users (options h) with
            | Some u :: _ =>
                let passwd := fst (Password u) in
                match core_PickCipher (Username u) passwd with
                | Some err =>
                    a1 ++ [APickCipher (Username u) passwd;
                           ALogf (Log_cipher (tunConn_LocalAddr tc)
                                    (nc_LocalAddr c) err)] ++ deferred
                | None =>
                    a1 ++ [APickCipher (Username u) passwd;
                           ATransportTun tc true raddr] ++ deferred
                end
            | _ => a1 ++ [ATransportTun tc false raddr] ++ deferred
            end
        end
    end.

End Handler.

(** Actions that the claim about a wrong connection type rules out. *)
Definition is_setup_action (a : Action) : bool :=
  match a with
  | AWaterNew _ | AExec _ _ | APickCipher _ _ | ATransportTun _ _ _ => true
  | _ => false
  end.

(** The pool traffic within a trace. *)
Definition is_pool (e : Event) : bool :=
  match e with
  | EvGet _ | EvPut _ => true
  | _ => false
  end.

Definition pool_events (tr : list Event) : list Event := filter is_pool tr.

(** The session result the specification attaches to a delivered error:
    end-of-stream is success, anything else is reported as it is. *)
Definition reported (e : error) : GoError :=
  match e with
  | EOF => nil_error
  | _ => Some e
  end.

(** The forwarding address the specification describes: the learned entry
    for the destination when there is one, else the static remote. *)
Definition resolve (m : gmap string Addr) (static : option Addr) (dst : IP)
  : option Addr :=
  match m !! IP_String dst with
  | Some a => Some a
  | None => static
  end.

(** A sequence of observations applied to the table, one [LoadOrStore]
    each. *)
Definition learn_all (obs : list (string * Addr)) (m : gmap string Addr)
  : gmap string Addr :=
  foldl (fun m o => snd (LoadOrStore m (fst o) (snd o))) m obs.

(** What holds of a session all along: before [transportTun] returns, the
    slot of [errc] holds the first error sent, if any; once it returned,
    its result is the one reported for the first error sent. *)
Definition session_inv (ses : Session) : Prop :=
  match result ses with
  | Some r =>
      exists e, first_sent (trace (shared ses)) = Some e /\ r = reported e
  | None => first_sent (trace (shared ses)) = errc ses
  end.

(** ** Measures on traces, scripts and call sequences *)

(** Number of events of a trace that satisfy [p]. *)
Fixpoint count (p : Event -> bool) (tr : list Event) : nat :=
  match tr with
  | [] => O
  | e :: rest => ((if p e then 1 else 0) + count p rest)%nat
  end.

Definition is_send (e : Event) : bool :=
  match e with EvSend _ => true | _ => false end.

Definition is_recv (e : Event) : bool :=
  match e with EvRecv _ => true | _ => false end.

Definition is_get (p : Pool) (e : Event) : bool :=
  match e, p with
  | EvGet sPool, sPool | EvGet mPool, mPool => true
  | _, _ => false
  end.

Definition is_put (p : Pool) (e : Event) : bool :=
  match e, p with
  | EvPut sPool, sPool | EvPut mPool, mPool => true
  | _, _ => false
  end.

(** Payloads handed to [conn.WriteTo], with their addresses, and payloads
    handed to [tun.Write], in the order of the calls. *)
Definition sent_to_transport (tr : list Event) : list (list byte * Addr) :=
  omap (fun e => match e with EvWriteTo b a => Some (b, a) | _ => None end) tr.

Definition written_to_tun (tr : list Event) : list (list byte) :=
  omap (fun e => match e with EvWrite b => Some b | _ => None end) tr.

(** Packets the world hands to each pump, in the order of the reads. *)
Definition tun_reads (ts : list TunTurn) : list (list byte) :=
  omap (fun t => match tun_Read t with inl b => Some b | inr _ => None end) ts.

Definition conn_reads (cs : list ConnTurn) : list (list byte * Addr) :=
  omap (fun t => match conn_ReadFrom t with inl r => Some r | inr _ => None end)
    cs.

(** 1 for a pump that is past its [return]. *)
Definition returned (g : Goroutine) : nat :=
  match g with Returned => 1%nat | _ => O end.

(** A turn during which nothing fails: the read succeeds, the header
    parses and the write, if it comes to it, succeeds. *)
Definition tun_turn_ok (parse : list byte -> Header + error) (t : TunTurn)
  : Prop :=
  match tun_Read t with
  | inl b => (exists h, parse b = inl h) /\ conn_WriteTo t = None
  | inr _ => False
  end.

Definition conn_turn_ok (parse : list byte -> Header + error) (t : ConnTurn)
  : Prop :=
  match conn_ReadFrom t with
  | inl (b, _) => (exists h, parse b = inl h) /\ tun_Write t = None
  | inr _ => False
  end.

(** The results of the [Accept] calls of a sequence of calls. *)
Fixpoint serve (cs : list ListenerCall) (l : tunListener)
  : list (Outcome (option UDPConn * GoError)) :=
  match cs with
  | [] => []
  | CallAccept :: rest =>
      fst (tunListener_Accept l) :: serve rest (snd (tunListener_Accept l))
  | CallClose :: rest => serve rest (snd (tunListener_Close l))
  end.

(** The actions of a complete [createTun] for configuration [cfg], should
    the interface come up under the name [name] and the MTU be [mtu]. *)
Definition setup_plan (cfg : TunConfig) (name mtu : string) : list Action :=
  [AWaterNew (cfg_Name cfg);
   AExec "/sbin/ip" ["link"; "set"; "dev"; name; "mtu"; mtu];
   AExec "/sbin/ip" ["addr"; "add"; cfg_Addr cfg; "dev"; name];
   AExec "/sbin/ip" ["link"; "set"; "dev"; name; "up"]].

Definition is_final (a : Action) : bool :=
  match a with AConnClose | AExit _ => true | _ => false end.

Definition is_tun_close (a : Action) : bool :=
  match a with ATunClose _ => true | _ => false end.

Definition is_transport (a : Action) : bool :=
  match a with ATransportTun _ _ _ => true | _ => false end.

Definition is_create_action (a : Action) : bool :=
  match a with AWaterNew _ | AExec _ _ => true | _ => false end.

(** Number of actions of a list that satisfy [p]. *)
Fixpoint count_actions (p : Action -> bool) (l : list Action) : nat :=
  match l with
  | [] => O
  | a :: rest => ((if p a then 1 else 0) + count_actions p rest)%nat
  end.

(** Occupancy of the slot of [errc], and whether [transportTun] has
    returned. *)
Definition slot (ch : option error) : nat :=
  match ch with Some _ => 1%nat | None => O end.

Definition done_ (r : option GoError) : nat :=
  match r with Some _ => 1%nat | None => O end.

(** Sends, receives and returns always balance. *)
Definition count_inv (ses : Session) : Prop :=
  count is_send (trace (shared ses)) =
    (returned (tunPump ses) + returned (connPump ses))%nat /\
  count is_send (trace (shared ses)) =
    (slot (errc ses) + count is_recv (trace (shared ses)))%nat /\
  count is_recv (trace (shared ses)) = done_ (result ses).


(** Some datagram of [cs] came from [a] and carried an IPv4 header whose
    source address prints as [k]. *)
Definition learnt_from (parse : list byte -> Header + error)
    (cs : list ConnTurn) (k : string) (a : Addr) : Prop :=
  exists b h w,
    mkConnTurn (inl (b, a)) w ∈ cs /\ parse b = inl h /\
    Version h = ipv4_Version /\ IP_String (Src h) = k.

(** What was written and what was learnt so far stems from the turns
    already taken, [d1] and [d2]. *)
Definition flow_inv (parse : list byte -> Header + error)
    (static : option Addr) (ts : list TunTurn) (cs : list ConnTurn)
    (ses : Session) : Prop :=
  exists d1 d2,
    ts = d1 ++ tunScript ses /\ cs = d2 ++ connScript ses /\
    (sent_to_transport (trace (shared ses))).*1 `sublist_of` tun_reads d1 /\
    written_to_tun (trace (shared ses)) `sublist_of` (conn_reads d2).*1 /\
    (forall k a, routes (shared ses) !! k = Some a -> learnt_from parse d2 k a) /\
    (forall b a, (b, a) ∈ sent_to_transport (trace (shared ses)) ->
       static = Some a \/ exists k, learnt_from parse d2 k a).

(** An [Accept] that did not hand out the socket. *)
Definition refused (o : Outcome (option UDPConn * GoError)) : Prop :=
  o = Blocked \/ o = Done (None, Some errAcceptClosed).

(** ** Sample data *)

Definition tunA : Addr := mkAddr "ip" "10.0.0.1".
Definition udpL : Addr := mkAddr "udp" "0.0.0.0:8421".
Definition addrA : Addr := mkAddr "udp" "192.0.2.1:8421".
Definition addrB : Addr := mkAddr "udp" "192.0.2.2:8421".
Definition addrC : Addr := mkAddr "udp" "192.0.2.3:8421".

(** Three bytes: too short for a header. *)
Definition truncated : list byte := [x45; x00; x00].

(** A header that announces 60 bytes in a buffer of 20. *)
Definition inconsistent : list byte :=
  [x4f; x00; x00; x14; x00; x00; x00; x00; x40; x11; x00; x00;
   x0a; x00; x00; x09; x0a; x00; x00; x05].

(** An IPv4 header, 10.0.0.9 -> 10.0.0.5, protocol 17. *)
Definition packet4 : list byte :=
  [x45; x00; x00; x14; x00; x01; x40; x00; x40; x11; x00; x00;
   x0a; x00; x00; x09; x0a; x00; x00; x05].

(** The first 20 bytes of an IPv6 packet. *)
Definition packet6 : list byte :=
  [x60; x00; x00; x00; x00; x00; x3b; x40; xfe; x80; x00; x00;
   x00; x00; x00; x00; x00; x00; x00; x00].

Definition header4 : Header :=
  {| Version := 4; Len := 20; TOS := 0; TotalLen := 20; ID := 1;
     Flags := 2; FragOff := 0; TTL := 64; Protocol := 17; Checksum := 0;
     Src := IPv4 x0a x00 x00 x09; Dst := IPv4 x0a x00 x00 x05;
     Options := [] |}.

Definition header6 : Header :=
  {| Version := 6; Len := 0; TOS := 0; TotalLen := 0; ID := 0;
     Flags := 1; FragOff := 6976; TTL := 254; Protocol := 128; Checksum := 0;
     Src := IPv4 x00 x00 x00 x00; Dst := IPv4 x00 x00 x00 x00;
     Options := [] |}.

Definition errReset : error := errors_New "connection reset by peer".

(** A session in which one datagram from [addrB] has been relayed and a
    second one, from [addrC] with the same source IP, is still to come. *)
Definition learned : Session :=
  run ParseHeader tunA udpL None false [ConnPump]
    (start [] [mkConnTurn (inl (packet4, addrB)) None;
               mkConnTurn (inl (packet4, addrC)) None]).

(** Collaborators of the handler that fail whenever they are asked. *)
Definition no_cidr (_ : string) : IP + error := inr (errors_New "invalid CIDR address").
Definition no_tun (_ : string) : Interface + error := inr (errors_New "no tun device").
Definition no_cmd (_ : list string) : GoError := Some (errors_New "exit status 1").
Definition no_udp (_ : string) : Addr + error := inr (errors_New "unknown host").
Definition no_cipher (_ _ : string) : GoError := Some (errors_New "unknown cipher").
Definition no_itoa (_ : Z) : string := "1350".

Definition handler0 : tunHandler :=
  {| h_raddr := "";
     options := {| Users := [];
                   opt_TunConfig := {| cfg_Name := "tun0";
                                       cfg_Addr := "10.0.0.1/24";
                                       cfg_MTU := 0; cfg_Routes := [] |} |} |}.

Definition tcpConn : NetConn :=
  {| nc_LocalAddr := mkAddr "tcp" "0.0.0.0:8421"; implementsPacketConn := false |}.

(** A session that has returned success while the other pump has yet to
    meet its own error. *)
Definition finished : Session :=
  transportTun ParseHeader tunA udpL None false [TunPump; TunPump; Main]
    [mkTunTurn (inr EOF) None] [mkConnTurn (inr errReset) None].

(** Both pumps have met an error; the transport pump has sent its own and
    the interface pump waits for the slot. *)
Definition contended : Session :=
  transportTun ParseHeader tunA udpL None false [ConnPump; ConnPump; TunPump]
    [mkTunTurn (inr EOF) None] [mkConnTurn (inr errReset) None].

(** Collaborators of the handler that always succeed. *)
Definition ok_cidr (_ : string) : IP + error := inl (IPv4 x0a x00 x00 x01).
Definition ok_tun (name : string) : Interface + error := inl (mkInterface name).
Definition ok_cmd (_ : list string) : GoError := None.

Definition udpConn : NetConn :=
  {| nc_LocalAddr := udpL; implementsPacketConn := true |}.

Definition socket0 : UDPConn := mkUDPConn udpL.

(** ** Facts about the sample data *)

Example ParseHeader_truncated : ParseHeader truncated = inr errHeaderTooShort.
Proof. reflexivity. Qed.

Example ParseHeader_inconsistent :
  ParseHeader inconsistent = inr errExtHeaderTooShort.
Proof. reflexivity. Qed.

Example ParseHeader_packet4 : ParseHeader packet4 = inl header4.
Proof. reflexivity. Qed.

Example ParseHeader_packet6 : ParseHeader packet6 = inl header6.
Proof. reflexivity. Qed.

Example IP_String_sample : IP_String (IPv4 x0a x00 x00 xff) = "10.0.0.255".
Proof. reflexivity. Qed.

(** ** Traces *)

Lemma first_sent_app (t1 t2 : list Event) :
  first_sent (t1 ++ t2) =
  match first_sent t1 with
  | Some e => Some e
  | None => first_sent t2
  end.
Proof.
  induction t1 as [|ev t1 IH]; simpl; [reflexivity|].
  destruct ev; auto.
Qed.

Lemma forwards_app (t1 t2 : list Event) :
  forwards (t1 ++ t2) = forwards t1 ++ forwards t2.
Proof. unfold forwards. apply filter_app. Qed.

Lemma error_eqb_EOF (e : error) : error_eqb e EOF = true <-> e = EOF.
Proof. destruct e; simpl; split; congruence. Qed.

Lemma normalize_reported (e : error) : normalize (Some e) = reported e.
Proof. destruct e; reflexivity. Qed.

(** ** The pumps, one iteration at a time *)

Section RelayFacts.

Context (parse : list byte -> Header + error).
Context (tl cl : Addr) (static : option Addr) (dbg : bool).

Local Abbreviation tun_iter := (tunPump_iter parse tl static dbg).
Local Abbreviation conn_iter := (connPump_iter parse tl dbg).
Local Abbreviation step_ := (step parse tl cl static dbg).
Local Abbreviation run_ := (run parse tl cl static dbg).

(** What an iteration appends to the trace never contains a send, and the
    interface-to-transport pump leaves [routes] alone. *)
Lemma tunPump_iter_frame (t : TunTurn) (s : Shared) :
  exists evs,
    trace (snd (tun_iter t s)) = trace s ++ evs /\
    first_sent evs = None /\
    routes (snd (tun_iter t s)) = routes s.
Proof.
  unfold tunPump_iter, tunPump_body.
  destruct t as [[b|err] w]; simpl.
  2:{ exists [EvGet sPool; EvPut sPool]. rewrite <- app_assoc. auto. }
  destruct (parse b) as [h|err]; simpl.
  2:{ eexists [_; _; _]. rewrite <- !app_assoc. simpl. eauto. }
  destruct (negb _); simpl.
  { eexists [_; _; _]. rewrite <- !app_assoc. simpl. eauto. }
  unfold Load. simpl.
  destruct (routes s !! _) as [a|]; [|destruct static as [a|]]; simpl.
  3:{ eexists [_; _; _]. rewrite <- !app_assoc. simpl. eauto. }
  all: destruct dbg; simpl.
  all: first [ eexists [_; _; _; _]; rewrite <- !app_assoc; simpl; by eauto
             | eexists [_; _; _]; rewrite <- !app_assoc; simpl; by eauto ].
Qed.

Lemma connPump_iter_frame (t : ConnTurn) (s : Shared) :
  exists evs,
    trace (snd (conn_iter t s)) = trace s ++ evs /\ first_sent evs = None.
Proof.
  unfold connPump_iter, connPump_body.
  destruct t as [[[b from]|err] w]; simpl.
  2:{ exists [EvGet sPool; EvPut mPool]. rewrite <- app_assoc. auto. }
  destruct (parse b) as [h|err]; simpl.
  2:{ eexists [_; _; _]. rewrite <- !app_assoc. simpl. eauto. }
  destruct (negb _); simpl.
  { eexists [_; _; _]. rewrite <- !app_assoc. simpl. eauto. }
  unfold LoadOrStore.
  destruct dbg; simpl; destruct (routes s !! _) as [a|]; simpl;
    try destruct (negb _); simpl.
  all: first [ eexists [_; _; _; _; _]; rewrite <- !app_assoc; simpl; by eauto
             | eexists [_; _; _; _]; rewrite <- !app_assoc; simpl; by eauto
             | eexists [_; _; _]; rewrite <- !app_assoc; simpl; by eauto ].
Qed.

(** Leaving or staying in the loop is decided by the iteration's result. *)
Lemma pump_step_Looping {T : Type} (iter : T -> Shared -> GoError * Shared)
    (t : T) (rest : list T) (sh : Shared) (ch : option error) :
  pump_step iter Looping (t :: rest) sh ch =
  (match fst (iter t sh) with None => Looping | Some e => Sending e end,
   rest, snd (iter t sh), ch).
Proof. simpl. destruct (iter t sh) as [[e|] sh']; reflexivity. Qed.

(** C5: for a parsed IPv4 packet read from the interface, the pump forwards
    to the learned entry for the destination when there is one, otherwise
    to the static remote address; with neither, it logs, writes nothing
    and stays in its loop. *)
Theorem forwarding_address_resolution
    (b : list byte) (h : Header) (w : GoError) (rest : list TunTurn)
    (s : Shared) (ch : option error) :
  parse b = inl h ->
  Version h = ipv4_Version ->
  pump_step tun_iter Looping (mkTunTurn (inl b) w :: rest) s ch =
  match resolve (routes s) static (Dst h) with
  | Some a =>
      (match w with None => Looping | Some e => Sending e end, rest,
       {| routes := routes s;
          trace := trace s ++ [EvGet sPool] ++
                   (if dbg then [EvLogf (Log_debug_out tl a h)] else []) ++
                   [EvWriteTo b a; EvPut sPool] |}, ch)
  | None =>
      (Looping, rest,
       {| routes := routes s;
          trace := trace s ++
                   [EvGet sPool;
                    EvLogf (Log_no_address tl (Src h) (Dst h));
                    EvPut sPool] |}, ch)
  end.
Proof.
  intros Hp Hv. rewrite pump_step_Looping.
  unfold tunPump_iter, tunPump_body, resolve, Load. simpl.
  rewrite Hp, Hv. simpl.
  destruct (routes s !! IP_String (Dst h)) as [a|]; [|destruct static as [a|]];
    simpl; try destruct dbg; unfold emit; simpl; rewrite <- ?app_assoc;
    reflexivity.
Qed.

(** C6: every iteration takes its scratch buffer from a pool first and
    gives it to a pool last, with no pool traffic in between; the
    interface-to-transport pump takes from and returns to [sPool], the
    transport-to-interface pump takes from [sPool] and returns to [mPool]. *)
Theorem scratch_buffer_pools (t1 : TunTurn) (t2 : ConnTurn) (s : Shared) :
  (exists mid,
     trace (snd (tun_iter t1 s)) =
       trace s ++ [EvGet sPool] ++ mid ++ [EvPut sPool] /\
     pool_events mid = []) /\
  (exists mid,
     trace (snd (conn_iter t2 s)) =
       trace s ++ [EvGet sPool] ++ mid ++ [EvPut mPool] /\
     pool_events mid = []).
Proof.
  split.
  - unfold tunPump_iter, tunPump_body, Load.
    destruct t1 as [[b|err] w]; simpl.
    2:{ exists []. rewrite <- app_assoc. auto. }
    destruct (parse b) as [h|err]; simpl.
    2:{ eexists [_]. rewrite <- !app_assoc. simpl. eauto. }
    destruct (negb _); simpl.
    { eexists [_]. rewrite <- !app_assoc. simpl. eauto. }
    destruct (routes s !! _) as [a|]; [|destruct static as [a|]]; simpl.
    3:{ eexists [_]. rewrite <- !app_assoc. simpl. eauto. }
    all: destruct dbg; simpl.
    all: first [ eexists [_; _]; rewrite <- !app_assoc; simpl; by eauto
               | eexists [_]; rewrite <- !app_assoc; simpl; by eauto ].
  - unfold connPump_iter, connPump_body, LoadOrStore.
    destruct t2 as [[[b from]|err] w]; simpl.
    2:{ exists []. rewrite <- app_assoc. auto. }
    destruct (parse b) as [h|err]; simpl.
    2:{ eexists [_]. rewrite <- !app_assoc. simpl. eauto. }
    destruct (negb _); simpl.
    { eexists [_]. rewrite <- !app_assoc. simpl. eauto. }
    destruct dbg; simpl; destruct (routes s !! _) as [a|]; simpl;
      try destruct (negb _); simpl.
    all: first [ eexists [_; _; _]; rewrite <- !app_assoc; simpl; by eauto
               | eexists [_; _]; rewrite <- !app_assoc; simpl; by eauto
               | eexists [_]; rewrite <- !app_assoc; simpl; by eauto ].
Qed.

(** C1, as the code has it: a buffer that fails header parsing is logged
    and not forwarded, and the failure is fatal.  The iteration returns the
    parse error, so the pump leaves its loop for the send on [errc]; when
    the channel is free and the session has not returned yet, the pump
    returns, the rest of its input is never read and the session reports
    that error. *)
Theorem parse_failure_ends_pump (b : list byte) (e : error) :
  parse b = inr e ->
  (forall w rest s ch,
     pump_step tun_iter Looping (mkTunTurn (inl b) w :: rest) s ch =
     (Sending e, rest,
      {| routes := routes s;
         trace := trace s ++
                  [EvGet sPool; EvLogf (Log_tun_err tl e); EvPut sPool] |},
      ch)) /\
  (forall from w rest s ch,
     pump_step conn_iter Looping (mkConnTurn (inl (b, from)) w :: rest) s ch =
     (Sending e, rest,
      {| routes := routes s;
         trace := trace s ++
                  [EvGet sPool; EvLogf (Log_conn_err tl from e);
                   EvPut mPool] |},
      ch)) /\
  (forall w rest ses,
     tunPump ses = Looping -> tunScript ses = mkTunTurn (inl b) w :: rest ->
     errc ses = None -> result ses = None ->
     let ses' := run_ [TunPump; TunPump; Main] ses in
     tunPump ses' = Returned /\ tunScript ses' = rest /\
     result ses' = Some (reported e) /\
     forwards (trace (shared ses')) = forwards (trace (shared ses))) /\
  (forall from w rest ses,
     connPump ses = Looping ->
     connScript ses = mkConnTurn (inl (b, from)) w :: rest ->
     errc ses = None -> result ses = None ->
     let ses' := run_ [ConnPump; ConnPump; Main] ses in
     connPump ses' = Returned /\ connScript ses' = rest /\
     result ses' = Some (reported e) /\
     forwards (trace (shared ses')) = forwards (trace (shared ses))).
Proof.
  intros Hp.
  assert (Ht : forall w s,
    tun_iter (mkTunTurn (inl b) w) s =
    (Some e, {| routes := routes s;
                trace := trace s ++ [EvGet sPool; EvLogf (Log_tun_err tl e);
                                     EvPut sPool] |})).
  { intros. unfold tunPump_iter, tunPump_body. simpl. rewrite Hp.
    unfold emit. simpl. rewrite <- !app_assoc. reflexivity. }
  assert (Hc : forall from w s,
    conn_iter (mkConnTurn (inl (b, from)) w) s =
    (Some e, {| routes := routes s;
                trace := trace s ++ [EvGet sPool; EvLogf (Log_conn_err tl from e);
                                     EvPut mPool] |})).
  { intros. unfold connPump_iter, connPump_body. simpl. rewrite Hp.
    unfold emit. simpl. rewrite <- !app_assoc. reflexivity. }
  repeat split.
  1: intros; rewrite pump_step_Looping, Ht; reflexivity.
  1: intros; rewrite pump_step_Looping, Hc; reflexivity.
  all: destruct ses as [sh ch g1 s1 g2 s2 r]; simpl in *; subst.
  all: unfold step, main_step; simpl; rewrite ?Ht, ?Hc; simpl.
  all: rewrite ?normalize_reported; try reflexivity.
  all: rewrite !forwards_app; simpl; rewrite !app_nil_r; reflexivity.
Qed.

(** C7: a packet whose header parses but whose version is not 4 is logged
    as ignored and dropped by both pumps: nothing is written, [routes] is
    untouched, the iteration returns nil and the pump stays in its loop.  A
    parse failure differs: there the pump leaves the loop. *)
Theorem unsupported_version_dropped (b : list byte) (h : Header) :
  parse b = inl h ->
  Version h <> ipv4_Version ->
  (forall w rest s ch,
     pump_step tun_iter Looping (mkTunTurn (inl b) w :: rest) s ch =
     (Looping, rest,
      {| routes := routes s;
         trace := trace s ++
                  [EvGet sPool; EvLogf (Log_tun_ignored tl (Version h));
                   EvPut sPool] |},
      ch)) /\
  (forall from w rest s ch,
     pump_step conn_iter Looping (mkConnTurn (inl (b, from)) w :: rest) s ch =
     (Looping, rest,
      {| routes := routes s;
         trace := trace s ++
                  [EvGet sPool; EvLogf (Log_conn_ignored tl from (Version h));
                   EvPut mPool] |},
      ch)) /\
  (forall b' e w w' rest rest' s s' ch ch',
     parse b' = inr e ->
     pump_step tun_iter Looping (mkTunTurn (inl b') w' :: rest') s' ch' <>
     pump_step tun_iter Looping (mkTunTurn (inl b) w :: rest) s ch) /\
  (forall b' e from from' w w' rest rest' s s' ch ch',
     parse b' = inr e ->
     pump_step conn_iter Looping
       (mkConnTurn (inl (b', from')) w' :: rest') s' ch' <>
     pump_step conn_iter Looping (mkConnTurn (inl (b, from)) w :: rest) s ch).
Proof.
  intros Hp Hv.
  assert (Hn : negb (Version h =? ipv4_Version) = true).
  { apply negb_true_iff, Z.eqb_neq, Hv. }
  assert (Ht : forall w rest s ch,
    pump_step tun_iter Looping (mkTunTurn (inl b) w :: rest) s ch =
    (Looping, rest,
     {| routes := routes s;
        trace := trace s ++
                 [EvGet sPool; EvLogf (Log_tun_ignored tl (Version h));
                  EvPut sPool] |}, ch)).
  { intros. rewrite pump_step_Looping.
    unfold tunPump_iter, tunPump_body. simpl. rewrite Hp, Hn.
    unfold emit. simpl. rewrite <- !app_assoc. reflexivity. }
  assert (Hc : forall from w rest s ch,
    pump_step conn_iter Looping (mkConnTurn (inl (b, from)) w :: rest) s ch =
    (Looping, rest,
     {| routes := routes s;
        trace := trace s ++
                 [EvGet sPool; EvLogf (Log_conn_ignored tl from (Version h));
                  EvPut mPool] |}, ch)).
  { intros. rewrite pump_step_Looping.
    unfold connPump_iter, connPump_body. simpl. rewrite Hp, Hn.
    unfold emit. simpl. rewrite <- !app_assoc. reflexivity. }
  split; [exact Ht|]. split; [exact Hc|]. split.
  - intros b' e w w' rest rest' s s' ch ch' Hp'.
    rewrite Ht, pump_step_Looping.
    unfold tunPump_iter, tunPump_body. simpl. rewrite Hp'. simpl.
    intros H. inversion H.
  - intros b' e from from' w w' rest rest' s s' ch ch' Hp'.
    rewrite Hc, pump_step_Looping.
    unfold connPump_iter, connPump_body. simpl. rewrite Hp'. simpl.
    intros H. inversion H.
Qed.

(** *** The learning table *)

Lemma LoadOrStore_keeps (m : gmap string Addr) (k ip : string) (v a : Addr) :
  m !! ip = Some a -> snd (LoadOrStore m k v) !! ip = Some a.
Proof.
  intros H. unfold LoadOrStore.
  destruct (m !! k) as [actual|] eqn:Hk; simpl; [exact H|].
  rewrite lookup_insert_ne; [exact H|]. intros ->. congruence.
Qed.

Lemma learn_all_keeps (obs : list (string * Addr)) (m : gmap string Addr)
    (ip : string) (a : Addr) :
  m !! ip = Some a -> learn_all obs m !! ip = Some a.
Proof.
  revert m. induction obs as [|[k v] obs IH]; intros m H; simpl; [exact H|].
  apply IH. apply LoadOrStore_keeps, H.
Qed.

Lemma connPump_iter_keeps (t : ConnTurn) (s : Shared) (ip : string) (a : Addr) :
  routes s !! ip = Some a -> routes (snd (conn_iter t s)) !! ip = Some a.
Proof.
  intros H. unfold connPump_iter, connPump_body.
  destruct t as [[[b from]|err] w]; simpl; [|exact H].
  destruct (parse b) as [h|err]; simpl; [|exact H].
  destruct (negb _); simpl; [exact H|].
  pose proof (LoadOrStore_keeps (routes s) (IP_String (Src h)) ip from a H) as HL.
  destruct dbg; simpl;
    destruct (LoadOrStore (routes s) (IP_String (Src h)) from) as [[actual loaded] m];
    simpl in *; destruct (loaded && _); simpl; exact HL.
Qed.

Lemma step_keeps (th : Thread) (ses : Session) (ip : string) (a : Addr) :
  routes (shared ses) !! ip = Some a ->
  routes (shared (step_ th ses)) !! ip = Some a.
Proof.
  intros H. destruct ses as [sh ch g1 s1 g2 s2 r]. simpl in H.
  destruct th; unfold step; simpl.
  - destruct g1 as [|e|]; simpl; [|destruct ch; exact H|exact H].
    destruct s1 as [|t rest]; simpl; [exact H|].
    destruct (tunPump_iter_frame t sh) as (evs & _ & _ & Hr).
    destruct (tun_iter t sh) as [[e|] sh']; simpl in *; rewrite Hr; exact H.
  - destruct g2 as [|e|]; simpl; [|destruct ch; exact H|exact H].
    destruct s2 as [|t rest]; simpl; [exact H|].
    pose proof (connPump_iter_keeps t sh ip a H) as Hr.
    destruct (conn_iter t sh) as [[e|] sh']; simpl in *; exact Hr.
  - unfold main_step. simpl. destruct r; [exact H|]. destruct ch; exact H.
Qed.

(** C2: the table is first-writer-wins.  An address stored for a source IP
    stays through any further sequence of [LoadOrStore] calls and through
    any interleaving of the two pumps and the session; the first datagram
    from an unknown source stores its sender; a later one from another
    sender leaves [routes] as it is, logs the mismatch and is still
    written to the interface. *)
Theorem first_address_is_retained (ip : string) (a : Addr) :
  (forall obs m, m !! ip = Some a -> learn_all obs m !! ip = Some a) /\
  (forall schedule ses,
     routes (shared ses) !! ip = Some a ->
     routes (shared (run_ schedule ses)) !! ip = Some a) /\
  (forall b h w s,
     parse b = inl h -> Version h = ipv4_Version ->
     IP_String (Src h) = ip -> routes s !! ip = None ->
     routes (snd (conn_iter (mkConnTurn (inl (b, a)) w) s)) =
     <[ip := a]> (routes s)) /\
  (forall b h from w s,
     parse b = inl h -> Version h = ipv4_Version ->
     IP_String (Src h) = ip -> routes s !! ip = Some a ->
     Addr_String a <> Addr_String from ->
     conn_iter (mkConnTurn (inl (b, from)) w) s =
     (w, {| routes := routes s;
            trace := trace s ++ [EvGet sPool] ++
                     (if dbg then [EvLogf (Log_debug_in tl from h)] else []) ++
                     [EvLogf (Log_mismatch tl from (IP_String (Dst h)) from
                                (Addr_String a));
                      EvWrite b; EvPut mPool] |})).
Proof.
  split; [intros obs m; apply learn_all_keeps|]. split.
  { intros schedule. induction schedule as [|th schedule IH]; intros ses H;
      simpl; [exact H|]. apply IH, step_keeps, H. }
  split.
  - intros b h w s Hp Hv Hs Hr.
    unfold connPump_iter, connPump_body, LoadOrStore. simpl.
    rewrite Hp, Hv, Hs. simpl.
    destruct dbg; simpl; rewrite Hr; reflexivity.
  - intros b h from w s Hp Hv Hs Hr Hne.
    unfold connPump_iter, connPump_body, LoadOrStore. simpl.
    rewrite Hp, Hv, Hs. simpl.
    destruct dbg; simpl; rewrite Hr; simpl;
      rewrite bool_decide_eq_false_2 by exact Hne; unfold emit; simpl;
      rewrite <- !app_assoc; reflexivity.
Qed.

(** *** Termination protocol *)

Lemma session_inv_pump {T : Type} (iter : T -> Shared -> GoError * Shared)
    (g : Goroutine) (script : list T) (sh : Shared) (ch : option error)
    (r : option GoError) :
  (forall t s, exists evs,
      trace (snd (iter t s)) = trace s ++ evs /\ first_sent evs = None) ->
  match r with
  | Some x => exists e, first_sent (trace sh) = Some e /\ x = reported e
  | None => first_sent (trace sh) = ch
  end ->
  let '(_, _, sh', ch') := pump_step iter g script sh ch in
  match r with
  | Some x => exists e, first_sent (trace sh') = Some e /\ x = reported e
  | None => first_sent (trace sh') = ch'
  end.
Proof.
  intros Hframe Hinv. destruct g as [|e|]; simpl; [| |exact Hinv].
  - destruct script as [|t rest]; [exact Hinv|].
    destruct (Hframe t sh) as (evs & Htr & Hns).
    destruct (iter t sh) as [[e|] sh']; simpl in *.
    all: rewrite Htr, first_sent_app, Hns.
    all: destruct r as [x|]; [destruct Hinv as (e0 & -> & ->); eauto|].
    all: rewrite Hinv; destruct ch; reflexivity.
  - destruct ch as [e0|]; [exact Hinv|]. simpl.
    rewrite first_sent_app. simpl.
    destruct r as [x|]; [destruct Hinv as (e0 & -> & ->); eauto|].
    rewrite Hinv. reflexivity.
Qed.

Lemma session_inv_step (th : Thread) (ses : Session) :
  session_inv ses -> session_inv (step_ th ses).
Proof.
  unfold session_inv. destruct ses as [sh ch g1 s1 g2 s2 r]. simpl.
  intros Hinv. destruct th; unfold step; simpl.
  - pose proof (session_inv_pump tun_iter g1 s1 sh ch r) as H.
    destruct (pump_step tun_iter g1 s1 sh ch) as [[[g' s'] sh'] ch'].
    simpl. apply H; [|exact Hinv].
    intros t s. destruct (tunPump_iter_frame t s) as (evs & ? & ? & _). eauto.
  - pose proof (session_inv_pump conn_iter g2 s2 sh ch r) as H.
    destruct (pump_step conn_iter g2 s2 sh ch) as [[[g' s'] sh'] ch'].
    simpl. apply H; [|exact Hinv].
    intros t s. apply connPump_iter_frame.
  - unfold main_step. simpl. destruct r as [x|]; [exact Hinv|].
    destruct ch as [e|]; [|exact Hinv]. simpl.
    exists e. rewrite !first_sent_app, Hinv. simpl.
    split; [reflexivity|apply normalize_reported].
Qed.

Lemma session_inv_run (schedule : list Thread) (ses : Session) :
  session_inv ses -> session_inv (run_ schedule ses).
Proof.
  revert ses. induction schedule as [|th schedule IH]; intros ses H; simpl;
    [exact H|]. apply IH, session_inv_step, H.
Qed.

(** C4: the first error whose send on [errc] completes decides the result
    of [transportTun].  A result, once returned, is the one reported for
    that error: nil for [io.EOF], the error itself otherwise; and once an
    error was sent, the session has returned that result or returns it at
    its next step. *)
Theorem first_error_decides_result
    (schedule : list Thread) (ts : list TunTurn) (cs : list ConnTurn) :
  let ses := transportTun parse tl cl static dbg schedule ts cs in
  (forall r,
     result ses = Some r ->
     exists e, first_sent (trace (shared ses)) = Some e /\ r = reported e) /\
  (forall e,
     first_sent (trace (shared ses)) = Some e ->
     result (step_ Main ses) = Some (reported e)).
Proof.
  intros ses.
  assert (Hinv : session_inv ses).
  { apply session_inv_run. reflexivity. }
  unfold session_inv in Hinv. split.
  - intros r Hr. rewrite Hr in Hinv. exact Hinv.
  - intros e He. unfold step, main_step.
    destruct (result ses) as [r|] eqn:Hr.
    + rewrite Hr. destruct Hinv as (e0 & He0 & ->). congruence.
    + rewrite <- Hinv, He. simpl. rewrite normalize_reported. reflexivity.
Qed.

End RelayFacts.

(** ** The listener *)

Lemma call_keeps_closed (c : ListenerCall) (l : tunListener) :
  closed l = Closed -> call c l = {| conn := conn l; accepted := Closed;
                                     closed := Closed |} \/ call c l = l.
Proof.
  intros H. destruct l as [u a cl]. simpl in H. subst.
  destruct c, a; simpl; auto.
Qed.

Lemma calls_keep_closed (cs : list ListenerCall) (l : tunListener) :
  closed l = Closed -> closed (calls cs l) = Closed.
Proof.
  revert l. induction cs as [|c cs IH]; intros l H; simpl; [exact H|].
  apply IH. destruct (call_keeps_closed c l H) as [-> | ->]; auto.
Qed.

Lemma accepts_keep_open (n : nat) (l : tunListener) :
  closed l = Open -> closed (calls (replicate n CallAccept) l) = Open.
Proof.
  revert l. induction n as [|n IH]; intros l H; simpl; [exact H|].
  apply IH. destruct l as [u a cl]. simpl in H. subst.
  destruct a; reflexivity.
Qed.

(** C3, at the failing input: on a listener that was closed before any
    accept, [Accept] hands out the socket with a nil error. *)
Theorem accept_on_closed_listener_succeeds (c : UDPConn) :
  tunListener_Accept (snd (tunListener_Close (TunListener c))) =
  (Done (Some c, nil_error),
   {| conn := c; accepted := Closed; closed := Closed |}).
Proof. reflexivity. Qed.

(** X16: once one accept was served,
    a call on a closed listener fails, a call on an open one parks, and a
    parked call fails as soon as [Close] was called. *)
Lemma accept_after_first_accept (l : tunListener) :
  accepted l = Closed ->
  tunListener_Accept l =
    (match closed l with
     | Closed => Done (None, Some errAcceptClosed)
     | Open => Blocked
     end, l) /\
  tunListener_Accept_wait (snd (tunListener_Close l)) =
    Done (None, Some errAcceptClosed).
Proof.
  destruct l as [u a cl]. simpl. intros ->.
  unfold tunListener_Accept, tunListener_Accept_wait, tunListener_Close.
  destruct cl; auto.
Qed.

(** C8: on a listener that was never closed, whatever number of accepts
    came before, [Close] returns nil and closes the [closed] channel; after
    that, whatever calls come in between, [Close] fails with the
    already-closed error. *)
Theorem close_succeeds_once
    (c : UDPConn) (n : nat) (later : list ListenerCall) :
  let l := calls (replicate n CallAccept) (TunListener c) in
  fst (tunListener_Close l) = nil_error /\
  closed (snd (tunListener_Close l)) = Closed /\
  fst (tunListener_Close (calls later (snd (tunListener_Close l)))) =
    Some errListenerClosed.
Proof.
  intros l.
  assert (Ho : closed l = Open) by (apply accepts_keep_open; reflexivity).
  assert (Hc : closed (snd (tunListener_Close l)) = Closed).
  { unfold tunListener_Close. rewrite Ho. reflexivity. }
  split; [unfold tunListener_Close; rewrite Ho; reflexivity|].
  split; [exact Hc|].
  pose proof (calls_keep_closed later _ Hc) as Hl.
  unfold tunListener_Close at 1. rewrite Hl. reflexivity.
Qed.

(** ** The interface connection *)

(** C9: each of the three deadline setters returns the same non-nil
    error, "deadline not supported", for every connection and time. *)
Theorem deadlines_unsupported (c : tunConn) (t : Time) :
  let unsupported :=
    OpError "set" "tun" None None (errors_New "deadline not supported") in
  tunConn_SetDeadline c t = Some unsupported /\
  tunConn_SetReadDeadline c t = Some unsupported /\
  tunConn_SetWriteDeadline c t = Some unsupported /\
  tunConn_SetDeadline c t <> nil_error /\
  tunConn_SetReadDeadline c t <> nil_error /\
  tunConn_SetWriteDeadline c t <> nil_error.
Proof. repeat split; discriminate. Qed.

(** ** The handler *)

(** C10: when the connection is not a packet connection, [Handle] logs the
    wrong type and returns; all that follows are the two deferred calls.
    No interface is created, no command run, no cipher picked and no relay
    started. *)
Theorem wrong_connection_type
    (net_ParseCIDR : string -> IP + error)
    (water_New : string -> Interface + error)
    (cmd_Run : list string -> GoError)
    (net_ResolveUDPAddr : string -> Addr + error)
    (core_PickCipher : string -> string -> GoError)
    (strconv_Itoa : Z -> string) (DefaultMTU : Z)
    (h : tunHandler) (c : NetConn) :
  implementsPacketConn c = false ->
  let actions :=
    Handle net_ParseCIDR water_New cmd_Run net_ResolveUDPAddr
      core_PickCipher strconv_Itoa DefaultMTU h c in
  actions = [ALogf Log_wrong_type; AConnClose; AExit 0] /\
  filter is_setup_action actions = [].
Proof.
  intros Hc actions. subst actions. unfold Handle. rewrite Hc. simpl.
  split; reflexivity.
Qed.

(** ** The theorems at work on the sample data *)

(** A parse failure is fatal: a three-byte read from the interface,
    followed by a good packet.  The pump returns without reading the good
    packet and the session ends with the parse error. *)
Lemma parse_failure_is_fatal :
  let ses :=
    transportTun ParseHeader tunA udpL (Some addrA) false
      [TunPump; TunPump; Main]
      [mkTunTurn (inl truncated) None; mkTunTurn (inl packet4) None] [] in
  tunPump ses = Returned /\
  tunScript ses = [mkTunTurn (inl packet4) None] /\
  result ses = Some (Some errHeaderTooShort).
Proof. vm_compute. auto. Qed.

Lemma parse_failure_ends_pump_witness :
  ParseHeader truncated = inr errHeaderTooShort /\
  let ses :=
    run ParseHeader tunA udpL (Some addrA) false [TunPump; TunPump; Main]
      (start [mkTunTurn (inl truncated) None; mkTunTurn (inl packet4) None]
         []) in
  tunPump ses = Returned /\
  tunScript ses = [mkTunTurn (inl packet4) None] /\
  result ses = Some (Some errHeaderTooShort) /\
  forwards (trace (shared ses)) = [].
Proof.
  split; [reflexivity|].
  exact (proj1 (proj2 (proj2
           (parse_failure_ends_pump ParseHeader tunA udpL (Some addrA) false
              truncated errHeaderTooShort eq_refl)))
           None [mkTunTurn (inl packet4) None]
           (start [mkTunTurn (inl truncated) None;
                   mkTunTurn (inl packet4) None] [])
           eq_refl eq_refl eq_refl eq_refl).
Defined.

Lemma first_address_is_retained_witness :
  routes (shared learned) !! "10.0.0.9" = Some addrB /\
  routes (shared (run ParseHeader tunA udpL None false
                    [ConnPump; TunPump; Main] learned)) !! "10.0.0.9" =
    Some addrB.
Proof.
  assert (H : routes (shared learned) !! "10.0.0.9" = Some addrB)
    by (vm_compute; reflexivity).
  split; [exact H|].
  exact (proj1 (proj2
           (first_address_is_retained ParseHeader tunA udpL None false
              "10.0.0.9" addrB))
           [ConnPump; TunPump; Main] learned H).
Defined.

(** The second datagram of [learned] comes from [addrC]: the mismatch is
    logged once and the table still maps 10.0.0.9 to [addrB]. *)
Example second_sender_is_only_logged :
  let ses := run ParseHeader tunA udpL None false [ConnPump] learned in
  map_to_list (routes (shared ses)) = [("10.0.0.9", addrB)] /\
  trace (shared ses) =
  [EvGet sPool; EvWrite packet4; EvPut mPool;
   EvGet sPool;
   EvLogf (Log_mismatch tunA addrC "10.0.0.5" addrC "192.0.2.2:8421");
   EvWrite packet4; EvPut mPool].
Proof. vm_compute. auto. Qed.

Lemma first_error_decides_result_witness :
  let ses :=
    transportTun ParseHeader tunA udpL None false [TunPump; TunPump]
      [mkTunTurn (inr EOF) None] [mkConnTurn (inl (packet4, addrB)) None] in
  first_sent (trace (shared ses)) = Some EOF /\
  result (step ParseHeader tunA udpL None false Main ses) = Some nil_error.
Proof.
  intros ses.
  assert (H : first_sent (trace (shared ses)) = Some EOF)
    by (vm_compute; reflexivity).
  split; [exact H|].
  exact (proj2 (first_error_decides_result ParseHeader tunA udpL None false
                  [TunPump; TunPump] [mkTunTurn (inr EOF) None]
                  [mkConnTurn (inl (packet4, addrB)) None]) EOF H).
Defined.

(** End-of-stream on the interface while the other pump still runs: the
    session reports success, and the later failure of the other pump is
    sent but changes nothing. *)
Example eof_is_success :
  let ses :=
    transportTun ParseHeader tunA udpL None false
      [TunPump; TunPump; Main; ConnPump; ConnPump; Main]
      [mkTunTurn (inr EOF) None] [mkConnTurn (inr errReset) None] in
  result ses = Some nil_error /\ connPump ses = Returned /\
  errc ses = Some errReset.
Proof. vm_compute. auto. Qed.

(** Any other error is reported as it is; the pump that lost the race
    waits for the slot and then completes its send. *)
Example other_error_is_reported :
  let ses :=
    transportTun ParseHeader tunA udpL None false
      [ConnPump; ConnPump; TunPump; TunPump; Main; TunPump]
      [mkTunTurn (inr EOF) None] [mkConnTurn (inr errReset) None] in
  result ses = Some (Some errReset) /\ tunPump ses = Returned /\
  errc ses = Some EOF.
Proof. vm_compute. auto. Qed.

(** Destination 10.0.0.5, nothing learned, static remote [addrA]: the
    packet goes to [addrA]. *)
Lemma forwarding_address_resolution_witness :
  ParseHeader packet4 = inl header4 /\
  Version header4 = ipv4_Version /\
  pump_step (tunPump_iter ParseHeader tunA (Some addrA) false) Looping
    [mkTunTurn (inl packet4) None] {| routes := ∅; trace := [] |} None =
  (Looping, [],
   {| routes := ∅;
      trace := [EvGet sPool; EvWriteTo packet4 addrA; EvPut sPool] |}, None).
Proof.
  split; [reflexivity|]. split; [reflexivity|].
  exact (forwarding_address_resolution ParseHeader tunA (Some addrA) false
           packet4 header4 None [] {| routes := ∅; trace := [] |} None
           eq_refl eq_refl).
Defined.

(** The learned entry wins over the static remote. *)
Example learned_route_wins :
  fst (pump_step (tunPump_iter ParseHeader tunA (Some addrA) false) Looping
         [mkTunTurn (inl packet4) None]
         {| routes := {["10.0.0.5" := addrB]}; trace := [] |} None) =
  (Looping, [],
   {| routes := {["10.0.0.5" := addrB]};
      trace := [EvGet sPool; EvWriteTo packet4 addrB; EvPut sPool] |}).
Proof. vm_compute. reflexivity. Qed.

Lemma unsupported_version_dropped_witness :
  ParseHeader packet6 = inl header6 /\
  Version header6 <> ipv4_Version /\
  pump_step (connPump_iter ParseHeader tunA false) Looping
    [mkConnTurn (inl (packet6, addrB)) None] {| routes := ∅; trace := [] |}
    None =
  (Looping, [],
   {| routes := ∅;
      trace := [EvGet sPool; EvLogf (Log_conn_ignored tunA addrB 6);
                EvPut mPool] |}, None).
Proof.
  assert (Hv : Version header6 <> ipv4_Version) by discriminate.
  split; [reflexivity|]. split; [exact Hv|].
  exact (proj1 (proj2
           (unsupported_version_dropped ParseHeader tunA (Some addrA) false
              packet6 header6 eq_refl Hv))
           addrB None [] {| routes := ∅; trace := [] |} None).
Defined.

Lemma wrong_connection_type_witness :
  implementsPacketConn tcpConn = false /\
  Handle no_cidr no_tun no_cmd no_udp no_cipher no_itoa 1350 handler0 tcpConn =
  [ALogf Log_wrong_type; AConnClose; AExit 0].
Proof.
  split; [reflexivity|].
  exact (proj1 (wrong_connection_type no_cidr no_tun no_cmd no_udp no_cipher
                  no_itoa 1350 handler0 tcpConn eq_refl)).
Defined.

(** On a packet connection the handler does go on to create the
    interface. *)
Example packet_connection_reaches_setup :
  Handle (fun _ => inl (IPv4 x0a x00 x00 x01)) (fun n => inl (mkInterface n))
    no_cmd no_udp no_cipher
    no_itoa 1350 handler0
    {| nc_LocalAddr := udpL; implementsPacketConn := true |} =
  [AWaterNew "tun0";
   AExec "/sbin/ip" ["link"; "set"; "dev"; "tun0"; "mtu"; "1350"];
   ALogf (Log_create_tun udpL (errors_New "exit status 1"));
   AConnClose; AExit 0].
Proof. reflexivity. Qed.

(** ** Counting *)

Lemma count_app (p : Event -> bool) (t1 t2 : list Event) :
  count p (t1 ++ t2) = (count p t1 + count p t2)%nat.
Proof. induction t1 as [|e t1 IH]; simpl; [reflexivity|]. rewrite IH. lia. Qed.

Lemma sent_to_transport_app (t1 t2 : list Event) :
  sent_to_transport (t1 ++ t2) = sent_to_transport t1 ++ sent_to_transport t2.
Proof. apply omap_app. Qed.

Lemma written_to_tun_app (t1 t2 : list Event) :
  written_to_tun (t1 ++ t2) = written_to_tun t1 ++ written_to_tun t2.
Proof. apply omap_app. Qed.

(** ** The session as a whole *)

Section RelayInvariants.

Context (parse : list byte -> Header + error).
Context (tl cl : Addr) (static : option Addr) (dbg : bool).

Local Abbreviation tun_iter := (tunPump_iter parse tl static dbg).
Local Abbreviation conn_iter := (connPump_iter parse tl dbg).
Local Abbreviation step_ := (step parse tl cl static dbg).
Local Abbreviation run_ := (run parse tl cl static dbg).

Lemma run_invariant (P : Session -> Prop) :
  (forall th ses, P ses -> P (step_ th ses)) ->
  forall schedule ses, P ses -> P (run_ schedule ses).
Proof.
  intros Hstep schedule.
  induction schedule as [|th schedule IH]; intros ses H; simpl; auto.
Qed.

Lemma step_cases (P : Session -> Prop) (ses : Session) :
  P ses ->
  (forall t rest,
     tunPump ses = Looping -> tunScript ses = t :: rest ->
     P {| shared := snd (tun_iter t (shared ses)); errc := errc ses;
          tunPump := match fst (tun_iter t (shared ses)) with
                     | None => Looping
                     | Some e => Sending e
                     end;
          tunScript := rest;
          connPump := connPump ses; connScript := connScript ses;
          result := result ses |}) ->
  (forall e,
     tunPump ses = Sending e -> errc ses = None ->
     P {| shared := emit (EvSend e) (shared ses); errc := Some e;
          tunPump := Returned; tunScript := tunScript ses;
          connPump := connPump ses; connScript := connScript ses;
          result := result ses |}) ->
  (forall t rest,
     connPump ses = Looping -> connScript ses = t :: rest ->
     P {| shared := snd (conn_iter t (shared ses)); errc := errc ses;
          tunPump := tunPump ses; tunScript := tunScript ses;
          connPump := match fst (conn_iter t (shared ses)) with
                      | None => Looping
                      | Some e => Sending e
                      end;
          connScript := rest;
          result := result ses |}) ->
  (forall e,
     connPump ses = Sending e -> errc ses = None ->
     P {| shared := emit (EvSend e) (shared ses); errc := Some e;
          tunPump := tunPump ses; tunScript := tunScript ses;
          connPump := Returned; connScript := connScript ses;
          result := result ses |}) ->
  (forall e,
     result ses = None -> errc ses = Some e ->
     P {| shared := emit (EvLogf (Log_result tl cl (reported e)))
                      (emit (EvRecv e) (shared ses));
          errc := None;
          tunPump := tunPump ses; tunScript := tunScript ses;
          connPump := connPump ses; connScript := connScript ses;
          result := Some (reported e) |}) ->
  forall th, P (step_ th ses).
Proof.
  intros H0 Ht Hts Hc Hcs Hm th.
  destruct ses as [sh ch g1 s1 g2 s2 r]. simpl in *.
  destruct th; unfold step; simpl.
  - destruct g1 as [|e|]; simpl; [| |exact H0].
    + destruct s1 as [|t rest]; simpl; [exact H0|].
      specialize (Ht t rest eq_refl eq_refl).
      destruct (tun_iter t sh) as [[e|] sh']; exact Ht.
    + destruct ch as [e0|]; [exact H0|]. exact (Hts e eq_refl eq_refl).
  - destruct g2 as [|e|]; simpl; [| |exact H0].
    + destruct s2 as [|t rest]; simpl; [exact H0|].
      specialize (Hc t rest eq_refl eq_refl).
      destruct (conn_iter t sh) as [[e|] sh']; exact Hc.
    + destruct ch as [e0|]; [exact H0|]. exact (Hcs e eq_refl eq_refl).
  - unfold main_step. simpl. destruct r as [x|]; [exact H0|].
    destruct ch as [e|]; [|exact H0].
    rewrite normalize_reported. exact (Hm e eq_refl eq_refl).
Qed.


(** Everything one iteration of the interface-to-transport pump does. *)
Lemma tunPump_iter_effects (t : TunTurn) (s : Shared) :
  exists evs,
    snd (tun_iter t s) = {| routes := routes s; trace := trace s ++ evs |} /\
    count is_send evs = O /\ count is_recv evs = O /\
    count (is_get sPool) evs = 1%nat /\ count (is_put sPool) evs = 1%nat /\
    count (is_get mPool) evs = O /\ count (is_put mPool) evs = O /\
    written_to_tun evs = [] /\
    (sent_to_transport evs = [] \/
     exists b a h,
       tun_Read t = inl b /\ parse b = inl h /\
       Version h = ipv4_Version /\
       resolve (routes s) static (Dst h) = Some a /\
       sent_to_transport evs = [(b, a)]).
Proof.
  unfold tunPump_iter, tunPump_body, resolve, Load.
  destruct t as [[b|err] w]; simpl.
  2:{ exists [EvGet sPool; EvPut sPool]. unfold emit. simpl.
      rewrite <- app_assoc. repeat split; auto. }
  destruct (parse b) as [h|err] eqn:Hp; simpl.
  2:{ eexists [_; _; _]. unfold emit. simpl. rewrite <- !app_assoc.
      repeat split; auto. }
  destruct (Version h =? ipv4_Version) eqn:Hv; simpl.
  2:{ eexists [_; _; _]. unfold emit. simpl. rewrite <- !app_assoc.
      repeat split; auto. }
  apply Z.eqb_eq in Hv.
  destruct (routes s !! IP_String (Dst h)) as [a|] eqn:Hr;
    [|destruct static as [a|]]; simpl.
  3:{ eexists [_; _; _]. unfold emit. simpl. rewrite <- !app_assoc.
      repeat split; auto. }
  all: destruct dbg; simpl; unfold emit; simpl; rewrite <- !app_assoc; simpl.
  all: eexists; split; [reflexivity|]; simpl.
  all: repeat split; auto; right; exists b, a, h; rewrite ?Hr; auto.
Qed.

(** Everything one iteration of the transport-to-interface pump does. *)
Lemma connPump_iter_effects (t : ConnTurn) (s : Shared) :
  exists evs,
    trace (snd (conn_iter t s)) = trace s ++ evs /\
    count is_send evs = O /\ count is_recv evs = O /\
    count (is_get sPool) evs = 1%nat /\ count (is_put sPool) evs = O /\
    count (is_get mPool) evs = O /\ count (is_put mPool) evs = 1%nat /\
    sent_to_transport evs = [] /\
    (written_to_tun evs = [] /\ routes (snd (conn_iter t s)) = routes s \/
     exists b from h,
       conn_ReadFrom t = inl (b, from) /\ parse b = inl h /\
       Version h = ipv4_Version /\
       written_to_tun evs = [b] /\
       routes (snd (conn_iter t s)) =
         snd (LoadOrStore (routes s) (IP_String (Src h)) from)).
Proof.
  unfold connPump_iter, connPump_body.
  destruct t as [[[b from]|err] w]; simpl.
  2:{ exists [EvGet sPool; EvPut mPool]. rewrite <- app_assoc.
      repeat split; auto. }
  destruct (parse b) as [h|err] eqn:Hp; simpl.
  2:{ eexists [_; _; _]. rewrite <- !app_assoc. repeat split; auto. }
  destruct (Version h =? ipv4_Version) eqn:Hv; simpl.
  2:{ eexists [_; _; _]. rewrite <- !app_assoc. repeat split; auto. }
  apply Z.eqb_eq in Hv.
  destruct dbg; simpl;
    destruct (LoadOrStore _ (IP_String (Src h)) from) as [[actual loaded] m]
      eqn:HL; simpl;
    destruct (loaded && _); simpl; rewrite <- !app_assoc; simpl.
  all: eexists; split; [reflexivity|]; simpl.
  all: repeat split; auto; right; exists b, from, h; rewrite ?HL;
    repeat split; auto.
Qed.


(** *** Channel accounting *)

Lemma count_inv_step (th : Thread) (ses : Session) :
  count_inv ses -> count_inv (step_ th ses).
Proof.
  intros H. apply step_cases; [exact H|..]; unfold count_inv in *; simpl.
  - intros t rest Hg Hs. rewrite Hg in H.
    destruct (tunPump_iter_effects t (shared ses)) as (evs & -> & Hs1 & Hr1 & _).
    simpl. rewrite !count_app, Hs1, Hr1.
    destruct (fst (tun_iter t (shared ses))); simpl in *; lia.
  - intros e Hg Hc. rewrite Hg, Hc in H. rewrite !count_app. simpl in *. lia.
  - intros t rest Hg Hs. rewrite Hg in H.
    destruct (connPump_iter_effects t (shared ses)) as (evs & -> & Hs1 & Hr1 & _).
    rewrite !count_app, Hs1, Hr1.
    destruct (fst (conn_iter t (shared ses))); simpl in *; lia.
  - intros e Hg Hc. rewrite Hg, Hc in H. rewrite !count_app. simpl in *. lia.
  - intros e Hr Hc. rewrite Hr, Hc in H. rewrite !count_app. simpl in *. lia.
Qed.

Lemma count_inv_run (schedule : list Thread) (ts : list TunTurn)
    (cs : list ConnTurn) :
  count_inv (transportTun parse tl cl static dbg schedule ts cs).
Proof.
  unfold transportTun. apply run_invariant; [apply count_inv_step|].
  repeat split.
Qed.

(** X5: at every point of a session, as many sends on [errc] have
    completed as pumps have returned; the session receives at most once,
    and exactly when it has returned; the slot is full exactly when one
    more error was sent than received. *)
Theorem channel_accounting
    (schedule : list Thread) (ts : list TunTurn) (cs : list ConnTurn) :
  let ses := transportTun parse tl cl static dbg schedule ts cs in
  let tr := trace (shared ses) in
  count is_send tr = (returned (tunPump ses) + returned (connPump ses))%nat /\
  (count is_recv tr <= 1)%nat /\
  (count is_recv tr = 1%nat <-> result ses <> None) /\
  (errc ses <> None <-> count is_send tr = S (count is_recv tr)).
Proof.
  intros ses tr. destruct (count_inv_run schedule ts cs) as (H1 & H2 & H3).
  fold ses in H1, H2, H3. fold tr in H1, H2, H3.
  split; [exact H1|].
  destruct (result ses) as [r|]; destruct (errc ses) as [e|]; simpl in *;
    repeat split; try congruence; try lia.
Qed.

(** X4: a pump that waits at [errc <- err] is never stuck.  Whatever
    happened before, once the session has had its turn the send completes
    and the pump returns: the slot is free, or the session frees it. *)
Theorem send_never_stuck
    (schedule : list Thread) (ts : list TunTurn) (cs : list ConnTurn) :
  let ses := transportTun parse tl cl static dbg schedule ts cs in
  (forall e, tunPump ses = Sending e ->
     tunPump (run_ [Main; TunPump] ses) = Returned) /\
  (forall e, connPump ses = Sending e ->
     connPump (run_ [Main; ConnPump] ses) = Returned).
Proof.
  intros ses. destruct (count_inv_run schedule ts cs) as (H1 & H2 & H3).
  fold ses in H1, H2, H3.
  destruct ses as [sh ch g1 s1 g2 s2 r]. simpl in *.
  split; intros e ->; simpl in *; unfold main_step; simpl.
  - destruct r as [x|]; simpl in *.
    + destruct ch as [e0|]; simpl in *; [|reflexivity].
      destruct g2; simpl in *; lia.
    + destruct ch as [e0|]; simpl; reflexivity.
  - destruct r as [x|]; simpl in *.
    + destruct ch as [e0|]; simpl in *; [|reflexivity].
      destruct g1; simpl in *; lia.
    + destruct ch as [e0|]; simpl; reflexivity.
Qed.

(** X3: what [transportTun] returned does not change afterwards: the
    error the other pump sends later is never received. *)
Theorem result_is_final (schedule : list Thread) (ses : Session) (r : GoError) :
  result ses = Some r -> result (run_ schedule ses) = Some r.
Proof.
  revert ses. apply (run_invariant (fun ses => result ses = Some r)).
  intros th ses H. apply step_cases; simpl; auto. congruence.
Qed.


(** *** Pools *)


(** *** Payloads and routes *)

Lemma learnt_from_app (d : list ConnTurn) (t : ConnTurn) (k : string) (a : Addr) :
  learnt_from parse d k a -> learnt_from parse (d ++ [t]) k a.
Proof.
  intros (b & h & w & Hin & ?). exists b, h, w. split; [|assumption].
  apply elem_of_app. auto.
Qed.

Lemma flow_inv_step (ts : list TunTurn) (cs : list ConnTurn)
    (th : Thread) (ses : Session) :
  flow_inv parse static ts cs ses -> flow_inv parse static ts cs (step_ th ses).
Proof.
  intros H. apply step_cases; [exact H|..]; unfold flow_inv in *; simpl.
  - intros t rest Hg Hs. rewrite Hs in H.
    destruct H as (d1 & d2 & -> & -> & S1 & S2 & R & F).
    destruct (tunPump_iter_effects t (shared ses))
      as (evs & -> & _ & _ & _ & _ & _ & _ & W & Sx).
    simpl. exists (d1 ++ [t]), d2.
    rewrite <- app_assoc. split; [reflexivity|]. split; [reflexivity|].
    rewrite sent_to_transport_app, written_to_tun_app, W, app_nil_r.
    unfold tun_reads in *. rewrite omap_app, fmap_app.
    split; [|split; [exact S2|split; [exact R|]]].
    + apply sublist_app; [exact S1|].
      destruct Sx as [-> | (b & a & h & Hr & _ & _ & _ & ->)]; simpl.
      * apply sublist_nil_l.
      * rewrite Hr. reflexivity.
    + intros b a Hin. apply elem_of_app in Hin as [Hin|Hin]; [eauto|].
      destruct Sx as [Sx | (b' & a' & h & _ & _ & _ & Hres & Sx)];
        rewrite Sx in Hin.
      * inversion Hin.
      * apply list_elem_of_singleton in Hin. inversion Hin; subst.
        unfold resolve in Hres.
        destruct (routes (shared ses) !! IP_String (Dst h)) as [x|] eqn:Hl.
        -- inversion Hres; subst. right. eauto.
        -- left. exact Hres.
  - intros e _ _. destruct H as (d1 & d2 & ? & ? & S1 & S2 & R & F).
    exists d1, d2. rewrite sent_to_transport_app, written_to_tun_app.
    simpl. rewrite !app_nil_r. auto 10.
  - intros t rest Hg Hs. rewrite Hs in H.
    destruct H as (d1 & d2 & -> & -> & S1 & S2 & R & F).
    destruct (connPump_iter_effects t (shared ses))
      as (evs & -> & _ & _ & _ & _ & _ & _ & Sx & W).
    exists d1, (d2 ++ [t]).
    rewrite <- app_assoc. split; [reflexivity|]. split; [reflexivity|].
    rewrite sent_to_transport_app, written_to_tun_app, Sx, app_nil_r.
    unfold conn_reads in *. rewrite omap_app, fmap_app.
    split; [exact S1|]. split; [|split].
    + apply sublist_app; [exact S2|].
      destruct W as [[-> _] | (b & from & h & Hr & _ & _ & -> & _)]; simpl.
      * apply sublist_nil_l.
      * rewrite Hr. reflexivity.
    + destruct W as [[_ ->] | (b & from & h & Hr & Hp & Hv & _ & ->)];
        intros k a Hk.
      * apply learnt_from_app. auto.
      * unfold LoadOrStore in Hk.
        destruct (routes (shared ses) !! IP_String (Src h)) as [x|] eqn:Hl;
          simpl in Hk.
        -- apply learnt_from_app. auto.
        -- destruct (decide (IP_String (Src h) = k)) as [<-|Hne].
           ++ rewrite lookup_insert_eq in Hk. inversion Hk; subst.
              exists b, h, (tun_Write t). split; [|auto].
              apply elem_of_app. right. apply list_elem_of_singleton.
              destruct t as [rd w]. simpl in *. subst. reflexivity.
           ++ rewrite lookup_insert_ne in Hk by exact Hne.
              apply learnt_from_app. auto.
    + intros b a Hin. destruct (F b a Hin) as [?|[k Hk]]; [auto|].
      right. exists k. apply learnt_from_app. exact Hk.
  - intros e _ _. destruct H as (d1 & d2 & ? & ? & S1 & S2 & R & F).
    exists d1, d2. rewrite sent_to_transport_app, written_to_tun_app.
    simpl. rewrite !app_nil_r. auto 10.
  - intros e _ _. destruct H as (d1 & d2 & ? & ? & S1 & S2 & R & F).
    exists d1, d2. rewrite !sent_to_transport_app, !written_to_tun_app.
    simpl. rewrite !app_nil_r. auto 10.
Qed.

Lemma flow_inv_run (schedule : list Thread) (ts : list TunTurn)
    (cs : list ConnTurn) :
  flow_inv parse static ts cs (transportTun parse tl cl static dbg schedule ts cs).
Proof.
  unfold transportTun. apply run_invariant; [apply flow_inv_step|].
  exists [], []. simpl. repeat split; try reflexivity.
  - intros k a Hk. rewrite lookup_empty in Hk. discriminate.
  - intros b a Hin. inversion Hin.
Qed.


Lemma learnt_from_prefix (d rest : list ConnTurn) (k : string) (a : Addr) :
  learnt_from parse d k a -> learnt_from parse (d ++ rest) k a.
Proof.
  intros (b & h & w & Hin & ?). exists b, h, w. split; [|assumption].
  apply elem_of_app. auto.
Qed.

(** X7: the relay adds no framing and keeps the order within each
    direction.  The payloads written to the transport are, in order, some
    of the packets read from the interface, byte for byte; the payloads
    written to the interface are, in order, some of the datagrams read
    from the transport. *)
Theorem payloads_in_order
    (schedule : list Thread) (ts : list TunTurn) (cs : list ConnTurn) :
  let tr := trace (shared (transportTun parse tl cl static dbg schedule ts cs)) in
  (sent_to_transport tr).*1 `sublist_of` tun_reads ts /\
  written_to_tun tr `sublist_of` (conn_reads cs).*1.
Proof.
  destruct (flow_inv_run schedule ts cs) as (d1 & d2 & H1 & H2 & S1 & S2 & _).
  simpl. split.
  - rewrite H1 at 2. unfold tun_reads in *. rewrite omap_app.
    apply sublist_inserts_r, S1.
  - rewrite H2 at 2. unfold conn_reads in *. rewrite omap_app, fmap_app.
    apply sublist_inserts_r, S2.
Qed.

(** X8: every entry of [routes] was learnt from a datagram: some datagram
    read from the transport came from the stored address and carried an
    IPv4 header whose source prints as the key.  Packets read from the
    interface never add an entry. *)
Theorem routes_come_from_datagrams
    (schedule : list Thread) (ts : list TunTurn) (cs : list ConnTurn)
    (k : string) (a : Addr) :
  routes (shared (transportTun parse tl cl static dbg schedule ts cs)) !! k =
    Some a ->
  learnt_from parse cs k a.
Proof.
  destruct (flow_inv_run schedule ts cs) as (d1 & d2 & _ & H2 & _ & _ & R & _).
  intros Hk. rewrite H2. apply learnt_from_prefix, R, Hk.
Qed.

(** X9: a packet is only ever written to the static remote address or to
    an address some datagram was received from. *)
Theorem forward_targets_known
    (schedule : list Thread) (ts : list TunTurn) (cs : list ConnTurn)
    (b : list byte) (a : Addr) :
  (b, a) ∈ sent_to_transport
             (trace (shared (transportTun parse tl cl static dbg schedule ts cs))) ->
  static = Some a \/ exists k, learnt_from parse cs k a.
Proof.
  destruct (flow_inv_run schedule ts cs) as (d1 & d2 & _ & H2 & _ & _ & _ & F).
  intros Hin. destruct (F b a Hin) as [?|[k Hk]]; [auto|].
  right. exists k. rewrite H2. apply learnt_from_prefix, Hk.
Qed.

(** *** Sessions in which nothing fails *)

Lemma tun_turn_ok_nil (t : TunTurn) (s : Shared) :
  tun_turn_ok parse t -> fst (tun_iter t s) = None.
Proof.
  unfold tun_turn_ok, tunPump_iter, tunPump_body.
  destruct t as [[b|err] w]; simpl; [|tauto].
  intros [[h ->] ->]. simpl.
  destruct (negb _); simpl; [reflexivity|].
  destruct (Load _ _); [|destruct static]; simpl; try destruct dbg; reflexivity.
Qed.

Lemma conn_turn_ok_nil (t : ConnTurn) (s : Shared) :
  conn_turn_ok parse t -> fst (conn_iter t s) = None.
Proof.
  unfold conn_turn_ok, connPump_iter, connPump_body.
  destruct t as [[[b from]|err] w]; simpl; [|tauto].
  intros [[h ->] ->]. simpl.
  destruct (negb _); simpl; [reflexivity|].
  destruct dbg; simpl;
    destruct (LoadOrStore _ _ _) as [[actual loaded] m]; simpl;
    destruct loaded; simpl; try destruct (bool_decide _); reflexivity.
Qed.

(** X10: a session ends only on an error.  When every read succeeds,
    every header parses and every write succeeds, then whatever the
    versions and destinations are, both pumps stay in their loops, nothing
    is sent on [errc] and [transportTun] does not return. *)
Theorem quiet_session_keeps_running
    (schedule : list Thread) (ts : list TunTurn) (cs : list ConnTurn) :
  Forall (tun_turn_ok parse) ts ->
  Forall (conn_turn_ok parse) cs ->
  let ses := transportTun parse tl cl static dbg schedule ts cs in
  result ses = None /\ errc ses = None /\
  tunPump ses = Looping /\ connPump ses = Looping /\
  count is_send (trace (shared ses)) = O.
Proof.
  intros Ht Hc. unfold transportTun.
  apply (run_invariant (fun ses =>
    Forall (tun_turn_ok parse) (tunScript ses) /\
    Forall (conn_turn_ok parse) (connScript ses) /\
    result ses = None /\ errc ses = None /\
    tunPump ses = Looping /\ connPump ses = Looping /\
    count is_send (trace (shared ses)) = O)); [|simpl; auto 10].
  intros th ses (F1 & F2 & Hr & He & G1 & G2 & Hs).
  apply step_cases; simpl; [auto 10|..].
  - intros t rest _ Hscr. rewrite Hscr in F1.
    apply Forall_cons in F1 as [Hok F1].
    rewrite (tun_turn_ok_nil t (shared ses) Hok).
    destruct (tunPump_iter_effects t (shared ses)) as (evs & -> & Hs1 & _).
    simpl. rewrite count_app, Hs, Hs1. auto 10.
  - intros e HS. congruence.
  - intros t rest _ Hscr. rewrite Hscr in F2.
    apply Forall_cons in F2 as [Hok F2].
    rewrite (conn_turn_ok_nil t (shared ses) Hok).
    destruct (connPump_iter_effects t (shared ses)) as (evs & -> & Hs1 & _).
    rewrite count_app, Hs, Hs1. auto 10.
  - intros e HS. congruence.
  - intros e _ HS. congruence.
Qed.


(** X1: for a parsed IPv4 datagram the transport-to-interface pump stores
    the sender under the source IP unless that IP has an entry, logs a
    mismatch when the entry prints differently from the sender, and in
    every case writes the datagram to the interface unchanged; it stays in
    its loop exactly when that write succeeds, and the entry stays learnt
    when it fails. *)
Theorem datagram_relayed
    (b : list byte) (h : Header) (from : Addr) (w : GoError)
    (rest : list ConnTurn) (s : Shared) (ch : option error) :
  parse b = inl h ->
  Version h = ipv4_Version ->
  pump_step conn_iter Looping (mkConnTurn (inl (b, from)) w :: rest) s ch =
  (match w with None => Looping | Some e => Sending e end, rest,
   {| routes := match routes s !! IP_String (Src h) with
                | Some _ => routes s
                | None => <[IP_String (Src h) := from]> (routes s)
                end;
      trace := trace s ++ [EvGet sPool] ++
               (if dbg then [EvLogf (Log_debug_in tl from h)] else []) ++
               match routes s !! IP_String (Src h) with
               | Some actual =>
                   if bool_decide (Addr_String actual = Addr_String from)
                   then []
                   else [EvLogf (Log_mismatch tl from (IP_String (Dst h)) from
                                   (Addr_String actual))]
               | None => []
               end ++ [EvWrite b; EvPut mPool] |}, ch).
Proof.
  intros Hp Hv. rewrite pump_step_Looping.
  unfold connPump_iter, connPump_body, LoadOrStore. simpl.
  rewrite Hp, Hv. simpl.
  destruct dbg; simpl;
    destruct (routes s !! IP_String (Src h)) as [actual|]; simpl;
    try destruct (bool_decide _); simpl; unfold emit; simpl;
    rewrite <- ?app_assoc; reflexivity.
Qed.

(** X2: a read error ends the pump without a log line of its own and
    without a write: the buffer goes back to its pool, the error is sent,
    and a session that was still running returns it, [io.EOF] as nil. *)
Theorem read_error_ends_session (e : error) :
  (forall w rest ses,
     tunPump ses = Looping -> tunScript ses = mkTunTurn (inr e) w :: rest ->
     errc ses = None -> result ses = None ->
     let ses' := run_ [TunPump; TunPump; Main] ses in
     tunPump ses' = Returned /\ result ses' = Some (reported e) /\
     routes (shared ses') = routes (shared ses) /\
     trace (shared ses') =
       trace (shared ses) ++
       [EvGet sPool; EvPut sPool; EvSend e; EvRecv e;
        EvLogf (Log_result tl cl (reported e))]) /\
  (forall w rest ses,
     connPump ses = Looping -> connScript ses = mkConnTurn (inr e) w :: rest ->
     errc ses = None -> result ses = None ->
     let ses' := run_ [ConnPump; ConnPump; Main] ses in
     connPump ses' = Returned /\ result ses' = Some (reported e) /\
     routes (shared ses') = routes (shared ses) /\
     trace (shared ses') =
       trace (shared ses) ++
       [EvGet sPool; EvPut mPool; EvSend e; EvRecv e;
        EvLogf (Log_result tl cl (reported e))]).
Proof.
  split; intros w rest ses Hg Hs Hc Hr;
    destruct ses as [sh ch g1 s1 g2 s2 r]; simpl in *; subst;
    unfold step, main_step, tunPump_iter, connPump_iter; simpl;
    rewrite normalize_reported, <- !app_assoc; auto.
Qed.

End RelayInvariants.

Lemma count_actions_app (p : Action -> bool) (l1 l2 : list Action) :
  count_actions p (l1 ++ l2) = (count_actions p l1 + count_actions p l2)%nat.
Proof. induction l1 as [|a l1 IH]; simpl; [reflexivity|]. rewrite IH. lia. Qed.

Lemma count_actions_create (p : Action -> bool) (l : list Action) :
  (forall a, is_create_action a = true -> p a = false) ->
  Forall (fun a => is_create_action a = true) l ->
  count_actions p l = O.
Proof.
  intros Hp. induction 1 as [|a l Ha _ IH]; simpl; [reflexivity|].
  rewrite (Hp a Ha), IH. reflexivity.
Qed.

(** ** The handler, every path *)

Section HandlerFacts.

Context (net_ParseCIDR : string -> IP + error).
Context (water_New : string -> Interface + error).
Context (cmd_Run : list string -> GoError).
Context (net_ResolveUDPAddr : string -> Addr + error).
Context (core_PickCipher : string -> string -> GoError).
Context (strconv_Itoa : Z -> string) (DefaultMTU : Z).

Local Abbreviation createTun_ :=
  (createTun net_ParseCIDR water_New cmd_Run strconv_Itoa DefaultMTU).
Local Abbreviation Handle_ :=
  (Handle net_ParseCIDR water_New cmd_Run net_ResolveUDPAddr core_PickCipher
     strconv_Itoa DefaultMTU).

Lemma createTun_actions (h : tunHandler) :
  Forall (fun a => is_create_action a = true) (fst (createTun_ h)).
Proof.
  unfold createTun, setup.
  destruct (net_ParseCIDR _) as [ip|err]; simpl; [|constructor].
  destruct (water_New _) as [i|err]; simpl; [|repeat constructor].
  destruct (cmd_Run _) as [err|]; simpl; [repeat constructor|].
  destruct (cmd_Run _) as [err|]; simpl; [repeat constructor|].
  destruct (cmd_Run _) as [err|]; simpl; repeat constructor.
Qed.

(** X11: [createTun] allocates the interface and then runs the three
    [/sbin/ip] commands in order (MTU, address, link up), the MTU being the
    default when the configured one is not positive.  It returns a
    connection, whose local address is the host IP of the CIDR, only when
    all of them succeeded.  A malformed CIDR fails before anything is
    allocated, and the first command that fails is the last one run and
    gives the error. *)
Theorem createTun_follows_plan (h : tunHandler) :
  let cfg := opt_TunConfig (options h) in
  let mtu :=
    strconv_Itoa (if cfg_MTU cfg <=? 0 then DefaultMTU else cfg_MTU cfg) in
  match createTun_ h with
  | (acts, inl tc) =>
      exists ip,
        net_ParseCIDR (cfg_Addr cfg) = inl ip /\
        water_New (cfg_Name cfg) = inl (ifce tc) /\
        tunConn_LocalAddr tc = mkAddr "ip" (IP_String ip) /\
        acts = setup_plan cfg (ifce_Name (ifce tc)) mtu /\
        (forall args, AExec "/sbin/ip" args ∈ acts -> cmd_Run args = None)
  | (acts, inr err) =>
      (net_ParseCIDR (cfg_Addr cfg) = inr err /\ acts = []) \/
      (water_New (cfg_Name cfg) = inr err /\ acts = [AWaterNew (cfg_Name cfg)]) \/
      (exists i n args,
         water_New (cfg_Name cfg) = inl i /\ (n < 3)%nat /\
         acts = take (S (S n)) (setup_plan cfg (ifce_Name i) mtu) /\
         last acts = Some (AExec "/sbin/ip" args) /\
         cmd_Run args = Some err)
  end.
Proof.
  intros cfg mtu. subst cfg mtu. unfold createTun, setup, setup_plan.
  destruct (net_ParseCIDR _) as [ip|err] eqn:Hip; simpl; [|auto].
  destruct (water_New _) as [i|err] eqn:Hw; simpl; [|auto].
  destruct (cmd_Run _) as [err|] eqn:H1; simpl.
  { right. right. exists i, 0%nat. eexists. repeat split; eauto. }
  destruct (cmd_Run _) as [err|] eqn:H2 in |- *; simpl.
  { right. right. exists i, 1%nat. eexists. repeat split; eauto. }
  destruct (cmd_Run _) as [err|] eqn:H3 in |- *; simpl.
  { right. right. exists i, 2%nat. eexists. repeat split; eauto. }
  exists ip. repeat split; auto.
  intros args Hin.
  rewrite !elem_of_cons, elem_of_nil in Hin.
  destruct Hin as [?|[Hin|[Hin|[Hin|[]]]]]; try discriminate;
    inversion Hin; subst; assumption.
Qed.


(** X12: whatever happens, [Handle] ends with [conn.Close] followed by
    [os.Exit(0)], each exactly once: the process exits with status 0 on
    failure as on success. *)
Theorem Handle_closes_and_exits (h : tunHandler) (c : NetConn) :
  exists body,
    Handle_ h c = body ++ [AConnClose; AExit 0] /\
    count_actions is_final body = O.
Proof.
  unfold Handle.
  destruct (implementsPacketConn c); simpl.
  2:{ exists [ALogf Log_wrong_type]. auto. }
  pose proof (createTun_actions h) as Hc.
  destruct (createTun_ h) as [a0 [tc|err]]; simpl in *.
  2:{ exists (a0 ++ [ALogf (Log_create_tun (nc_LocalAddr c) err)]).
      rewrite <- app_assoc, count_actions_app.
      rewrite (count_actions_create is_final a0); auto.
      intros [] ?; simpl in *; congruence. }
  assert (H0 : count_actions is_final a0 = O).
  { apply count_actions_create; auto. intros [] ?; simpl in *; congruence. }
  destruct (bool_decide (h_raddr h = "")); [|destruct (net_ResolveUDPAddr _)].
  3:{ eexists ((a0 ++ [_]) ++ [_; _]). rewrite <- !app_assoc. simpl.
      split; [reflexivity|]. rewrite !count_actions_app, H0. reflexivity. }
  all: destruct (Users (options h)) as [|[u|] us].
  all: try destruct (core_PickCipher _ _).
  all: first
    [ eexists ((a0 ++ [_]) ++ [_; _; _]); rewrite <- !app_assoc; simpl;
      split; [reflexivity|]; rewrite !count_actions_app, H0; reflexivity
    | eexists ((a0 ++ [_]) ++ [_; _]); rewrite <- !app_assoc; simpl;
      split; [reflexivity|]; rewrite !count_actions_app, H0; reflexivity ].
Qed.

(** X13: on a packet connection, the interface connection is closed
    exactly once, just before [conn.Close], when [createTun] returned it.
    When [createTun] failed, [Handle] logs and leaves: an interface that
    was allocated before a command failed is not closed. *)
Theorem tun_closed_iff_created (h : tunHandler) (c : NetConn) :
  implementsPacketConn c = true ->
  match createTun_ h with
  | (acts, inl tc) =>
      count_actions is_tun_close (Handle_ h c) = 1%nat /\
      exists body, Handle_ h c = body ++ [ATunClose tc; AConnClose; AExit 0]
  | (acts, inr err) =>
      Handle_ h c =
        acts ++ [ALogf (Log_create_tun (nc_LocalAddr c) err);
                 AConnClose; AExit 0] /\
      count_actions is_tun_close (Handle_ h c) = O
  end.
Proof.
  intros Hc. unfold Handle. rewrite Hc. simpl.
  pose proof (createTun_actions h) as Ha.
  destruct (createTun_ h) as [a0 [tc|err]]; simpl in *.
  2:{ split; [reflexivity|]. rewrite count_actions_app.
      rewrite (count_actions_create is_tun_close a0); auto.
      intros [] ?; simpl in *; congruence. }
  assert (H0 : count_actions is_tun_close a0 = O).
  { apply count_actions_create; auto. intros [] ?; simpl in *; congruence. }
  destruct (bool_decide (h_raddr h = "")); [|destruct (net_ResolveUDPAddr _)].
  3:{ split; [rewrite !count_actions_app, H0; reflexivity|].
      eexists ((a0 ++ [_]) ++ [_]). rewrite <- !app_assoc. reflexivity. }
  all: destruct (Users (options h)) as [|[u|] us].
  all: try destruct (core_PickCipher _ _).
  all: (split; [rewrite !count_actions_app, H0; reflexivity|]).
  all: first
    [ eexists ((a0 ++ [_]) ++ [_; _]); rewrite <- !app_assoc; reflexivity
    | eexists ((a0 ++ [_]) ++ [_]); rewrite <- !app_assoc; reflexivity ].
Qed.

Lemma createTun_no_transport (h : tunHandler) (tc : tunConn) (ci : bool)
    (ra : option Addr) :
  ATransportTun tc ci ra ∉ fst (createTun_ h).
Proof.
  intros Hin. pose proof (createTun_actions h) as Ha.
  rewrite Forall_forall in Ha. specialize (Ha _ Hin). discriminate.
Qed.

#[local] Set Warnings "-clear-no-such-hyp".

(** X14: [Handle] calls [transportTun] exactly when the connection is a
    packet connection, [createTun] succeeded, the remote address is empty
    or resolves, and the cipher of the first user, when there is one, could
    be picked; the relay then gets the created interface, a nil remote for
    an empty address, and the cipher-wrapped connection when there is a
    user. *)
Theorem relay_started_iff
    (h : tunHandler) (c : NetConn) (tc : tunConn) (ci : bool)
    (ra : option Addr) :
  ATransportTun tc ci ra ∈ Handle_ h c <->
  implementsPacketConn c = true /\
  snd (createTun_ h) = inl tc /\
  (if bool_decide (h_raddr h = "") then ra = None
   else exists a, net_ResolveUDPAddr (h_raddr h) = inl a /\ ra = Some a) /\
  match Users (options h) with
  | Some u :: _ =>
      core_PickCipher (Username u) (fst (Password u)) = None /\ ci = true
  | _ => ci = false
  end.
Proof.
  unfold Handle.
  destruct (implementsPacketConn c); simpl.
  2:{ rewrite !elem_of_cons, elem_of_nil. naive_solver. }
  pose proof (createTun_no_transport h tc ci ra) as Hn.
  destruct (createTun_ h) as [a0 [tc'|err]]; simpl in *.
  2:{ rewrite elem_of_app, !elem_of_cons, elem_of_nil. naive_solver. }
  destruct (bool_decide (h_raddr h = "")); [|destruct (net_ResolveUDPAddr _)].
  3:{ rewrite !elem_of_app, !elem_of_cons, elem_of_nil. naive_solver. }
  all: destruct (Users (options h)) as [|[u|] us].
  all: try destruct (core_PickCipher _ _) eqn:Hpc.
  all: rewrite !elem_of_app, !elem_of_cons, elem_of_nil.
  all: naive_solver.
Qed.

End HandlerFacts.

(** ** The listener, over sequences of calls *)

Lemma serve_after_accept (cs : list ListenerCall) (l : tunListener) :
  accepted l = Closed -> Forall refused (serve cs l).
Proof.
  revert l. induction cs as [|[|] cs IH]; intros l Ha; simpl.
  - constructor.
  - destruct l as [u a cl]. simpl in Ha. subst.
    unfold tunListener_Accept. simpl. constructor.
    + unfold refused, tunListener_Accept_wait. destruct cl; auto.
    + apply IH. reflexivity.
  - apply IH. destruct l as [u a cl]. simpl in *. subst.
    unfold tunListener_Close. destruct cl; reflexivity.
Qed.

Lemma serve_before_accept (cs : list ListenerCall) (l : tunListener) :
  accepted l = Open ->
  match serve cs l with
  | [] => Forall (fun x => x = CallClose) cs
  | first :: rest =>
      first = Done (Some (conn l), nil_error) /\ Forall refused rest
  end.
Proof.
  revert l. induction cs as [|[|] cs IH]; intros l Ha; simpl.
  - constructor.
  - destruct l as [u a cl]. simpl in Ha. subst.
    unfold tunListener_Accept. simpl. split; [reflexivity|].
    apply serve_after_accept. reflexivity.
  - specialize (IH (snd (tunListener_Close l))).
    destruct l as [u a cl]. simpl in Ha. subst.
    unfold tunListener_Close in *. destruct cl; simpl in *.
    + specialize (IH eq_refl). destruct (serve cs _); [constructor|]; auto.
    + specialize (IH eq_refl). destruct (serve cs _); [constructor|]; auto.
Qed.

(** X15: in any sequence of [Accept] and [Close] calls on a new listener,
    the first [Accept] returns the socket with a nil error and no later
    [Accept] returns a connection: each blocks or fails with the
    closed-listener error. *)
Theorem only_first_accept_yields_connection
    (c : UDPConn) (cs : list ListenerCall) :
  match serve cs (TunListener c) with
  | [] => Forall (fun x => x = CallClose) cs
  | first :: rest =>
      first = Done (Some c, nil_error) /\ Forall refused rest
  end.
Proof. apply (serve_before_accept cs (TunListener c)). reflexivity. Qed.

(** ** The further theorems at work on the sample data *)

Lemma datagram_relayed_witness :
  ParseHeader packet4 = inl header4 /\
  Version header4 = ipv4_Version /\
  pump_step (connPump_iter ParseHeader tunA false) Looping
    [mkConnTurn (inl (packet4, addrB)) (Some errReset)]
    {| routes := ∅; trace := [] |} None =
  (Sending errReset, [],
   {| routes := <["10.0.0.9" := addrB]> ∅;
      trace := [EvGet sPool; EvWrite packet4; EvPut mPool] |}, None).
Proof.
  split; [reflexivity|]. split; [reflexivity|].
  exact (datagram_relayed ParseHeader tunA false packet4 header4 addrB
           (Some errReset) [] {| routes := ∅; trace := [] |} None
           eq_refl eq_refl).
Defined.

Lemma read_error_ends_session_witness :
  let ses := start [mkTunTurn (inr EOF) None] [] in
  tunPump ses = Looping /\ errc ses = None /\ result ses = None /\
  result (run ParseHeader tunA udpL None false [TunPump; TunPump; Main] ses) =
    Some nil_error.
Proof.
  intros ses.
  split; [reflexivity|]. split; [reflexivity|]. split; [reflexivity|].
  exact (proj1 (proj2
           (proj1 (read_error_ends_session ParseHeader tunA udpL None false EOF)
              None [] ses eq_refl eq_refl eq_refl eq_refl))).
Defined.

Lemma result_is_final_witness :
  result finished = Some nil_error /\
  result (run ParseHeader tunA udpL None false [ConnPump; ConnPump; Main]
            finished) = Some nil_error.
Proof.
  assert (H : result finished = Some nil_error) by (vm_compute; reflexivity).
  split; [exact H|].
  exact (result_is_final ParseHeader tunA udpL None false
           [ConnPump; ConnPump; Main] finished nil_error H).
Defined.

Lemma send_never_stuck_witness :
  tunPump contended = Sending EOF /\ errc contended = Some errReset /\
  tunPump (run ParseHeader tunA udpL None false [Main; TunPump] contended) =
    Returned.
Proof.
  assert (H : tunPump contended = Sending EOF) by (vm_compute; reflexivity).
  split; [exact H|]. split; [vm_compute; reflexivity|].
  exact (proj1 (send_never_stuck ParseHeader tunA udpL None false
                  [ConnPump; ConnPump; TunPump]
                  [mkTunTurn (inr EOF) None] [mkConnTurn (inr errReset) None])
           EOF H).
Defined.

Lemma routes_come_from_datagrams_witness :
  let cs := [mkConnTurn (inl (packet4, addrB)) None;
             mkConnTurn (inl (packet4, addrC)) None] in
  routes (shared (transportTun ParseHeader tunA udpL None false
                    [ConnPump; ConnPump] [] cs)) !! "10.0.0.9" = Some addrB /\
  learnt_from ParseHeader cs "10.0.0.9" addrB.
Proof.
  intros cs.
  assert (H : routes (shared (transportTun ParseHeader tunA udpL None false
                                [ConnPump; ConnPump] [] cs)) !! "10.0.0.9" =
              Some addrB) by (vm_compute; reflexivity).
  split; [exact H|].
  exact (routes_come_from_datagrams ParseHeader tunA udpL None false
           [ConnPump; ConnPump] [] cs "10.0.0.9" addrB H).
Defined.

Lemma forward_targets_known_witness :
  let ts := [mkTunTurn (inl packet4) None] in
  (packet4, addrA) ∈
    sent_to_transport
      (trace (shared (transportTun ParseHeader tunA udpL (Some addrA) false
                        [TunPump] ts []))) /\
  (Some addrA = Some addrA \/ exists k, learnt_from ParseHeader [] k addrA).
Proof.
  intros ts.
  assert (H : (packet4, addrA) ∈
                sent_to_transport
                  (trace (shared (transportTun ParseHeader tunA udpL
                                    (Some addrA) false [TunPump] ts []))))
    by (vm_compute; constructor).
  split; [exact H|].
  exact (forward_targets_known ParseHeader tunA udpL (Some addrA) false
           [TunPump] ts [] packet4 addrA H).
Defined.

Lemma quiet_session_keeps_running_witness :
  let ts := [mkTunTurn (inl packet4) None; mkTunTurn (inl packet6) None] in
  let cs := [mkConnTurn (inl (packet6, addrB)) None] in
  Forall (tun_turn_ok ParseHeader) ts /\
  Forall (conn_turn_ok ParseHeader) cs /\
  result (transportTun ParseHeader tunA udpL None false
            [TunPump; ConnPump; Main; TunPump; ConnPump; Main] ts cs) = None.
Proof.
  intros ts cs.
  assert (Ht : Forall (tun_turn_ok ParseHeader) ts).
  { repeat constructor; eexists; reflexivity. }
  assert (Hc : Forall (conn_turn_ok ParseHeader) cs).
  { repeat constructor; eexists; reflexivity. }
  split; [exact Ht|]. split; [exact Hc|].
  exact (proj1 (quiet_session_keeps_running ParseHeader tunA udpL None false
                  [TunPump; ConnPump; Main; TunPump; ConnPump; Main]
                  ts cs Ht Hc)).
Defined.

Lemma tun_closed_iff_created_witness :
  implementsPacketConn udpConn = true /\
  count_actions is_tun_close
    (Handle ok_cidr ok_tun ok_cmd no_udp no_cipher no_itoa 1350 handler0
       udpConn) = 1%nat.
Proof.
  split; [reflexivity|].
  exact (proj1 (tun_closed_iff_created ok_cidr ok_tun ok_cmd no_udp no_cipher
                  no_itoa 1350 handler0 udpConn eq_refl)).
Defined.

(** An interface that came up but could not be configured is left open. *)
Example failed_setup_leaves_interface_open :
  Handle ok_cidr ok_tun no_cmd no_udp no_cipher no_itoa 1350 handler0 udpConn =
  [AWaterNew "tun0";
   AExec "/sbin/ip" ["link"; "set"; "dev"; "tun0"; "mtu"; "1350"];
   ALogf (Log_create_tun udpL (errors_New "exit status 1"));
   AConnClose; AExit 0].
Proof. reflexivity. Qed.

Lemma accept_after_first_accept_witness :
  let l := snd (tunListener_Accept (TunListener socket0)) in
  accepted l = Closed /\
  tunListener_Accept l = (Blocked, l) /\
  tunListener_Accept_wait (snd (tunListener_Close l)) =
    Done (None, Some errAcceptClosed).
Proof.
  intros l. split; [reflexivity|].
  exact (accept_after_first_accept l eq_refl).
Defined.

(** Close, accept, accept, close, accept: one connection, then refusals. *)
Example serve_sample :
  serve [CallClose; CallAccept; CallAccept; CallClose; CallAccept]
    (TunListener socket0) =
  [Done (Some socket0, nil_error);
   Done (None, Some errAcceptClosed);
   Done (None, Some errAcceptClosed)].
Proof. reflexivity. Qed.
